(** * movierecc front end: the dashboard controller, the login handler
      and the registration form

    A shallow embedding of [Front_end/src/Dashboard.js], [Front_end/src/App.js],
    [Front_end/src/signup.js] and [Front_end/src/config.js].

    - JavaScript values are a small inductive type; numbers are binary64
      floats, as in the language.  An object used as a map is its own
      properties together with its prototype, so that a read finds what the
      object inherits and an assignment to [__proto__] goes to the setter.
    - A component function is a computation in a state-and-exception monad
      over the component's "world": its React state, the browser's local
      storage, the requests in flight and the trace of effects (requests
      sent, navigations, console messages).
    - An [async] function is split where it awaits [fetch]: the part before
      sends the request and registers a continuation, the part after runs
      when the request settles with an [outcome]. *)

From Stdlib Require Import Floats.
From stdpp Require Import gmap strings list pretty.

Open Scope string_scope.

(** ** JavaScript values *)

(** What a program can reach of the language's own objects through a
    plain object: [Object.prototype] itself, and the function stored under
    [name] on the prototype [owner].  No parsed JSON text holds one. *)
Inductive builtin : Type :=
  | TheObjectPrototype
  | BuiltinFunction (owner name : string).

#[warnings="-register-all"]
Inductive jsval : Type :=
  | JUndefined
  | JNull
  | JBool (b : bool)
  | JNum (f : float)
  | JStr (s : string)
  | JArr (items : list jsval)
  | JObj (fields : list (string * jsval))
  | JBuiltin (b : builtin).

(** [ToBoolean]: what [if (v)], [v || w] and [v && w] test. *)
Definition truthy (v : jsval) : bool :=
  match v with
  | JUndefined | JNull => false
  | JBool b => b
  | JNum f => negb (PrimFloat.is_zero f || PrimFloat.is_nan f)
  | JStr s => negb (String.eqb s "")
  | JArr _ | JObj _ | JBuiltin _ => true
  end.

(** [a || b]. *)
Definition js_or (a b : jsval) : jsval := if truthy a then a else b.

(** [a ?? b]: the nullish coalescing the specification writes for the
    defaults of the profile statistics.  The source uses [js_or]. *)
Definition nullish (a b : jsval) : jsval :=
  match a with
  | JUndefined | JNull => b
  | _ => a
  end.

(** [v === n] for a number literal [n]. *)
Definition strict_eq_num (v : jsval) (n : float) : bool :=
  match v with
  | JNum f => PrimFloat.eqb f n
  | _ => false
  end.

(** A completion: a value, or a thrown exception. *)
Inductive completion (A : Type) : Type :=
  | Normal (a : A)
  | Throw.
Arguments Normal {A} a.
Arguments Throw {A}.

(** Own property [k] of an object literal or parsed JSON object. *)
Fixpoint field (k : string) (fs : list (string * jsval)) : jsval :=
  match fs with
  | [] => JUndefined
  | (k', v) :: rest => if String.eqb k k' then v else field k rest
  end.

(** [v.k] for the fixed property names the program reads from a response
    or a movie ([movie_id], [rating], [user_stats] and the like, none of
    them a member of a built-in prototype): a TypeError on [undefined] and
    [null], the own property on an object, [undefined] on any other
    value. *)
Definition get_prop (v : jsval) (k : string) : completion jsval :=
  match v with
  | JUndefined | JNull => Throw
  | JObj fs => Normal (field k fs)
  | _ => Normal JUndefined
  end.

(** The elements [v.forEach] visits: those of an array; the call throws on
    every other JSON value (no such method, or no property at all). *)
Definition for_each (v : jsval) : completion (list jsval) :=
  match v with
  | JArr items => Normal items
  | _ => Throw
  end.

(** ** Plain objects and what they inherit *)

Fixpoint has_field (k : string) (fs : list (string * jsval)) : bool :=
  match fs with
  | [] => false
  | (k', _) :: rest => String.eqb k k' || has_field k rest
  end.

(** The prototype of an object an object literal created: [Object.prototype]
    until the setter of [__proto__] replaces it by [null] or by an object
    (here a value of a parsed response). *)
Inductive prototype : Type :=
  | ObjectProto
  | NullProto
  | ValueProto (v : jsval).

(** An object used as a map: its own properties (all of them enumerable data
    properties, keyed by property name) and its prototype. *)
Record plain_object : Type := {
  own : gmap string jsval;
  proto : prototype
}.

(** [{}]. *)
Definition empty_object : plain_object := {| own := ∅; proto := ObjectProto |}.

(** [{ ...prev, [k]: v }]: a new object with the own properties of [prev]
    and the own property [k]; a computed key defines an own property under
    every name. *)
Definition literal_with (prev : plain_object) (k : string) (v : jsval) : plain_object :=
  {| own := <[k := v]> (own prev); proto := ObjectProto |}.

(** The data properties of [Object.prototype] with a string name, each a
    function. *)
Definition object_prototype_names : list string :=
  ["constructor"; "__defineGetter__"; "__defineSetter__"; "hasOwnProperty";
   "__lookupGetter__"; "__lookupSetter__"; "isPrototypeOf";
   "propertyIsEnumerable"; "toString"; "valueOf"; "toLocaleString"].

(** The data properties of [Array.prototype] with a string name other than
    [length] (ECMAScript 2023), each a function. *)
Definition array_prototype_names : list string :=
  ["constructor"; "at"; "concat"; "copyWithin"; "fill"; "find"; "findIndex";
   "findLast"; "findLastIndex"; "lastIndexOf"; "pop"; "push"; "reverse";
   "shift"; "unshift"; "slice"; "sort"; "splice"; "includes"; "indexOf";
   "join"; "keys"; "entries"; "values"; "forEach"; "filter"; "flat";
   "flatMap"; "map"; "every"; "some"; "reduce"; "reduceRight";
   "toLocaleString"; "toString"; "toReversed"; "toSorted"; "toSpliced";
   "with"].

(** The prototype as a value: what the getter of [__proto__] returns. *)
Definition prototype_value (p : prototype) : jsval :=
  match p with
  | ObjectProto => JBuiltin TheObjectPrototype
  | NullProto => JNull
  | ValueProto v => v
  end.

(** Property [k] of [Object.prototype], read for an object whose prototype
    is [receiver_prototype]: [__proto__] is an accessor whose getter returns
    the prototype of the object read. *)
Definition object_prototype_member (receiver_prototype : jsval) (k : string) : jsval :=
  if String.eqb k "__proto__" then receiver_prototype
  else if bool_decide (k ∈ object_prototype_names)
       then JBuiltin (BuiltinFunction "Object.prototype" k)
       else JUndefined.

Fixpoint float_of_nat (n : nat) : float :=
  match n with
  | O => 0%float
  | S m => (float_of_nat m + 1)%float
  end.

(** Property [k] of an array or of [Array.prototype]: [length], an element
    under its index in decimal, a method. *)
Definition array_member (items : list jsval) (k : string) : option jsval :=
  if String.eqb k "length" then Some (JNum (float_of_nat (length items)))
  else
    match list_find (fun i => pretty i = k) (seq 0 (length items)) with
    | Some (i, _) => items !! i
    | None =>
        if bool_decide (k ∈ array_prototype_names)
        then Some (JBuiltin (BuiltinFunction "Array.prototype" k))
        else None
    end.

(** What an object with prototype [p] and no own property [k] yields for
    [k]: the lookup walks the prototype, then the prototype's prototype,
    which for a parsed object is [Object.prototype] and for a parsed array
    [Array.prototype] and then [Object.prototype]; [undefined] at the end of
    the chain. *)
Definition inherited_member (p : prototype) (k : string) : jsval :=
  match p with
  | NullProto => JUndefined
  | ObjectProto => object_prototype_member (prototype_value p) k
  | ValueProto (JObj fs) =>
      if has_field k fs then field k fs
      else object_prototype_member (prototype_value p) k
  | ValueProto (JArr items) =>
      match array_member items k with
      | Some x => x
      | None => object_prototype_member (prototype_value p) k
      end
  | ValueProto _ => object_prototype_member (prototype_value p) k
  end.

(** [o[k]]. *)
Definition read_property (o : plain_object) (k : string) : jsval :=
  match own o !! k with
  | Some v => v
  | None => inherited_member (proto o) k
  end.

(** Whether a lookup of [__proto__] that starts at prototype [p] arrives at
    the accessor of [Object.prototype]: it does not when the chain ends
    before ([null]) or when a parsed object on it has an own property of
    that name. *)
Definition reaches_proto_accessor (p : prototype) : bool :=
  match p with
  | ObjectProto => true
  | NullProto => false
  | ValueProto (JObj fs) => negb (has_field "__proto__" fs)
  | ValueProto _ => true
  end.

(** [o[k] = v].  The assignment creates or updates the own property [k],
    except that [__proto__] on an object with no such own property and with
    the accessor on its chain calls the setter: it replaces the prototype
    when [v] is [null] or an object, and does nothing for any other [v]. *)
Definition assign (o : plain_object) (k : string) (v : jsval) : plain_object :=
  if String.eqb k "__proto__"
     && match own o !! k with Some _ => false | None => true end
     && reaches_proto_accessor (proto o)
  then
    match v with
    | JNull => {| own := own o; proto := NullProto |}
    | JArr _ | JObj _ | JBuiltin _ => {| own := own o; proto := ValueProto v |}
    | _ => o
    end
  else {| own := <[k := v]> (own o); proto := proto o |}.

(** ** [JSON.stringify] *)

(** [JSON.stringify(v)], as the value its text denotes ([JUndefined] when
    the call returns [undefined] and writes no text).  A property whose
    value is [undefined] or a function is left out of an object; such an
    element of an array is written [null]; a number that is not finite is
    written [null] and a zero of either sign [0]. *)
Fixpoint JSON_stringify (v : jsval) : jsval :=
  match v with
  | JUndefined => JUndefined
  | JNull | JBool _ | JStr _ => v
  | JNum f =>
      if PrimFloat.is_finite f
      then (if PrimFloat.is_zero f then JNum 0 else JNum f)
      else JNull
  | JArr items =>
      JArr ((fix elements (xs : list jsval) : list jsval :=
               match xs with
               | [] => []
               | x :: rest =>
                   match JSON_stringify x with
                   | JUndefined => JNull :: elements rest
                   | y => y :: elements rest
                   end
               end) items)
  | JObj fields =>
      JObj ((fix members (fs : list (string * jsval)) : list (string * jsval) :=
               match fs with
               | [] => []
               | (k, x) :: rest =>
                   match JSON_stringify x with
                   | JUndefined => members rest
                   | y => (k, y) :: members rest
                   end
               end) fields)
  | JBuiltin TheObjectPrototype => JObj []
  | JBuiltin (BuiltinFunction _ _) => JUndefined
  end.

(** The values [JSON.stringify] leaves out of an object. *)
Definition omitted (v : jsval) : bool :=
  match v with
  | JUndefined | JBuiltin (BuiltinFunction _ _) => true
  | _ => false
  end.

(** The names of an object's own properties, in order. *)
Definition field_names (v : jsval) : list string :=
  match v with
  | JObj fs => fst <$> fs
  | _ => []
  end.

(** ** The monad of component code *)

Definition js (W A : Type) : Type := W -> W * completion A.

#[global] Instance js_ret {W} : MRet (js W) :=
  fun A a w => (w, Normal a).

#[global] Instance js_bind {W} : MBind (js W) :=
  fun A B k m w =>
    match m w with
    | (w', Normal a) => k a w'
    | (w', Throw) => (w', Throw)
    end.

Definition throw {W A} : js W A := fun w => (w, Throw).

Definition lift {W A} (c : completion A) : js W A := fun w => (w, c).

Definition modify {W} (f : W -> W) : js W unit := fun w => (f w, Normal tt).

Definition gets {W A} (f : W -> A) : js W A := fun w => (w, Normal (f w)).

(** [try { m } catch (error) { h }]. *)
Definition try_catch {W A} (m h : js W A) : js W A :=
  fun w =>
    match m w with
    | (w', Throw) => h w'
    | r => r
    end.

(** [try { m } finally { f }]. *)
Definition try_finally {W A} (m : js W A) (f : js W unit) : js W A :=
  fun w =>
    match m w with
    | (w', r) =>
        match f w' with
        | (w'', Normal _) => (w'', r)
        | (w'', Throw) => (w'', Throw)
        end
    end.

(** The world a computation leaves behind. *)
Definition exec {W A} (m : js W A) (w : W) : W := fst (m w).

(** ** Requests, outcomes and effects *)

Inductive http_method : Type := GET | POST.

(** The argument of [fetch]: [authorization] is [Some t] when the call sets
    the header [Authorization: Bearer ${t}], where [t] is what
    [localStorage.getItem('token')] returned ([None] for [null]); [body] is
    the object handed to [JSON.stringify], and [sent_body] what the text
    sent denotes. *)
Record request : Type := {
  url : string;
  method : http_method;
  content_json : bool;
  authorization : option (option string);
  body : option jsval
}.

Definition sent_body (r : request) : option jsval := JSON_stringify <$> body r.

(** How a request settles: [fetch] rejects, or it resolves to a response
    with its [ok] flag and what [res.json()] parses ([None]: it rejects). *)
Inductive outcome : Type :=
  | NetworkError
  | Response (ok : bool) (json : option jsval).

(** What [localStorage.setItem] is given: a value, or [JSON.stringify] of
    one. *)
Inductive stored : Type :=
  | Raw (v : jsval)
  | Stringified (v : jsval).

Inductive effect : Type :=
  | Fetch (id : nat) (r : request)
  | Navigate (path : string)
  | ConsoleError (msg : string)
  | SetItem (key : string) (v : stored)
  | RemoveItem (key : string).

(** [const data = await res.json()] after [await fetch(...)]. *)
Definition await_json {W} (o : outcome) : js W (bool * jsval) :=
  match o with
  | NetworkError => throw
  | Response _ None => throw
  | Response ok (Some data) => mret (ok, data)
  end.

(** [await fetch(...)] alone. *)
Definition await_fetch {W} (o : outcome) : js W bool :=
  match o with
  | NetworkError => throw
  | Response ok _ => mret ok
  end.

(** ** The login handler ([App.js]) *)

Module Login.

(** The component's [useState] cells. *)
Record state : Type := {
  userNameError : jsval;
  passwordError : jsval;
  invalidCredentials : jsval;
  isLoading : bool
}.

Definition initial : state :=
  {| userNameError := JStr ""; passwordError := JStr "";
     invalidCredentials := JStr ""; isLoading := false |}.

(** The state, whether the login request is in flight, and the effects so
    far (oldest first). *)
Record world : Type := {
  st : state;
  in_flight : bool;
  trace : list effect
}.

Definition start : world := {| st := initial; in_flight := false; trace := [] |}.

Definition on_state (f : state -> state) (w : world) : world :=
  {| st := f (st w); in_flight := in_flight w; trace := trace w |}.

Definition setUsernameError (v : jsval) : js world unit :=
  modify (on_state (fun s =>
    {| userNameError := v; passwordError := passwordError s;
       invalidCredentials := invalidCredentials s; isLoading := isLoading s |})).

Definition setPasswordError (v : jsval) : js world unit :=
  modify (on_state (fun s =>
    {| userNameError := userNameError s; passwordError := v;
       invalidCredentials := invalidCredentials s; isLoading := isLoading s |})).

Definition setInvalidCredentials (v : jsval) : js world unit :=
  modify (on_state (fun s =>
    {| userNameError := userNameError s; passwordError := passwordError s;
       invalidCredentials := v; isLoading := isLoading s |})).

Definition setIsLoading (b : bool) : js world unit :=
  modify (on_state (fun s =>
    {| userNameError := userNameError s; passwordError := passwordError s;
       invalidCredentials := invalidCredentials s; isLoading := b |})).

Definition emit (e : effect) : js world unit :=
  modify (fun w =>
    {| st := st w; in_flight := in_flight w; trace := trace w ++ [e] |}).

Definition set_in_flight (b : bool) : js world unit :=
  modify (fun w => {| st := st w; in_flight := b; trace := trace w |}).

Definition login_request (username password : string) : request :=
  {| url := "http://localhost:5000/api/login";
     method := POST;
     content_json := true;
     authorization := None;
     body := Some (JObj [("username", JStr username); ("password", JStr password)]) |}.

(** [handleLogin] up to [await fetch(...)]: reset the three messages,
    validate the two fields, send the request. *)
Definition handleLogin (username password : string) : js world unit :=
  setUsernameError (JStr "");;
  setPasswordError (JStr "");;
  setInvalidCredentials (JStr "");;
  if String.eqb username "" then setUsernameError (JStr "Username is required")
  else if String.eqb password "" then setPasswordError (JStr "Password is required")
  else
    setIsLoading true;;
    emit (Fetch 0 (login_request username password));;
    set_in_flight true.

(** [handleLogin] from the point where the request settles. *)
Definition handleLogin_settled (o : outcome) : js world unit :=
  set_in_flight false;;
  try_finally
    (try_catch
       ('(ok, data) ← await_json o;
        if (ok : bool) then
          tok ← lift (get_prop data "token");
          emit (SetItem "token" (Raw tok));;
          usr ← lift (get_prop data "user");
          emit (SetItem "user" (Stringified usr));;
          emit (Navigate "/dashboard")
        else
          ep ← lift (get_prop data "error_password");
          (if truthy ep then setPasswordError ep else mret tt);;
          eu ← lift (get_prop data "error_username");
          (if truthy eu then setUsernameError eu else mret tt);;
          err ← lift (get_prop data "error");
          setInvalidCredentials err)
       (emit (ConsoleError "Error during login:");;
        setInvalidCredentials (JStr "Network error. Please try again.")))
    (setIsLoading false).

(** A submission of the form followed by the response to its request, if
    one was sent. *)
Definition submit_then_settle (username password : string) (o : outcome)
    (w : world) : world :=
  let w1 := exec (handleLogin username password) w in
  if in_flight w1 then exec (handleLogin_settled o) w1 else w1.

End Login.

(** ** The dashboard controller ([Dashboard.js]) *)

Module Dashboard.

(** [userStats]. *)
Record stats : Type := {
  user_mean : jsval;
  rating_count : jsval
}.

(** [ratingModal]. *)
Record modal : Type := {
  show : bool;
  movie : jsval
}.

(** The component's [useState] cells.  The object used as a map from movie
    identifier to rating is held as its own properties, [userRatings], keyed
    by property name, and its prototype, [ratingsPrototype];
    [selectedGenres] holds genre names; [recommendations], [genres] and
    [watchlist] hold what the service returned, as it returned it. *)
Record state : Type := {
  user : jsval;
  userStats : stats;
  recommendations : jsval;
  isLoadingRecs : bool;
  selectedGenres : list string;
  minRating : float;
  era : string;
  genres : jsval;
  userRatings : gmap string jsval;
  ratingsPrototype : prototype;
  activeTab : string;
  watchlist : jsval;
  ratingModal : modal;
  tempRating : jsval
}.

Definition closed_modal : modal := {| show := false; movie := JNull |}.

(** The initial values given to [useState]. *)
Definition initial : state :=
  {| user := JNull;
     userStats := {| user_mean := JNum 3.5; rating_count := JNum 0 |};
     recommendations := JArr [];
     isLoadingRecs := false;
     selectedGenres := [];
     minRating := 3.5%float;
     era := "any";
     genres := JArr [];
     userRatings := ∅;
     ratingsPrototype := ObjectProto;
     activeTab := "recommendations";
     watchlist := JArr [];
     ratingModal := closed_modal;
     tempRating := JNum 0 |}.

(** The two records of [localStorage] the program uses.  [token] is the
    stored string.  [user_record] is the stored text by what the mount
    effect observes of it: [None] when [getItem] returns [null] or the
    empty string, otherwise what [JSON.parse] makes of the text, the value
    it denotes or the exception thrown for a text that is not JSON (such as
    the text [undefined], which [handleLogin] stores when the response to
    the login has no [user]). *)
Record storage : Type := {
  token : option string;
  user_record : option (completion jsval)
}.

(** The continuation of each [async] function after its [fetch]. *)
Inductive pending_call : Type :=
  | AfterGenres
  | AfterUserStats
  | AfterUserRatings
  | AfterWatchlist
  | AfterRecommendations
  | AfterRate (movieId rating : jsval)
  | AfterAddToWatchlist.

(** State, storage, the requests in flight with their continuations, the
    next request number, and the effects so far (oldest first). *)
Record world : Type := {
  st : state;
  local_storage : storage;
  in_flight : gmap nat pending_call;
  next_id : nat;
  trace : list effect
}.

Definition start (ls : storage) : world :=
  {| st := initial; local_storage := ls; in_flight := ∅; next_id := 0; trace := [] |}.

Definition on_state (f : state -> state) (w : world) : world :=
  {| st := f (st w); local_storage := local_storage w;
     in_flight := in_flight w; next_id := next_id w; trace := trace w |}.

Definition emit (e : effect) : js world unit :=
  modify (fun w =>
    {| st := st w; local_storage := local_storage w;
       in_flight := in_flight w; next_id := next_id w; trace := trace w ++ [e] |}).

(** [fetch(r)]: the request leaves at once; [k] runs when it settles. *)
Definition send (r : request) (k : pending_call) : js world unit :=
  modify (fun w =>
    {| st := st w; local_storage := local_storage w;
       in_flight := <[next_id w := k]> (in_flight w);
       next_id := S (next_id w);
       trace := trace w ++ [Fetch (next_id w) r] |}).

Definition setUser (v : jsval) : js world unit :=
  modify (on_state (fun s =>
    {| user := v; userStats := userStats s; recommendations := recommendations s;
       isLoadingRecs := isLoadingRecs s; selectedGenres := selectedGenres s;
       minRating := minRating s; era := era s; genres := genres s;
       userRatings := userRatings s; ratingsPrototype := ratingsPrototype s;
       activeTab := activeTab s;
       watchlist := watchlist s; ratingModal := ratingModal s;
       tempRating := tempRating s |})).

Definition setUserStats (v : stats) : js world unit :=
  modify (on_state (fun s =>
    {| user := user s; userStats := v; recommendations := recommendations s;
       isLoadingRecs := isLoadingRecs s; selectedGenres := selectedGenres s;
       minRating := minRating s; era := era s; genres := genres s;
       userRatings := userRatings s; ratingsPrototype := ratingsPrototype s;
       activeTab := activeTab s;
       watchlist := watchlist s; ratingModal := ratingModal s;
       tempRating := tempRating s |})).

Definition setRecommendations (v : jsval) : js world unit :=
  modify (on_state (fun s =>
    {| user := user s; userStats := userStats s; recommendations := v;
       isLoadingRecs := isLoadingRecs s; selectedGenres := selectedGenres s;
       minRating := minRating s; era := era s; genres := genres s;
       userRatings := userRatings s; ratingsPrototype := ratingsPrototype s;
       activeTab := activeTab s;
       watchlist := watchlist s; ratingModal := ratingModal s;
       tempRating := tempRating s |})).

Definition setIsLoadingRecs (b : bool) : js world unit :=
  modify (on_state (fun s =>
    {| user := user s; userStats := userStats s; recommendations := recommendations s;
       isLoadingRecs := b; selectedGenres := selectedGenres s;
       minRating := minRating s; era := era s; genres := genres s;
       userRatings := userRatings s; ratingsPrototype := ratingsPrototype s;
       activeTab := activeTab s;
       watchlist := watchlist s; ratingModal := ratingModal s;
       tempRating := tempRating s |})).

(** [setSelectedGenres(prev => f(prev))]. *)
Definition setSelectedGenres (f : list string -> list string) : js world unit :=
  modify (on_state (fun s =>
    {| user := user s; userStats := userStats s; recommendations := recommendations s;
       isLoadingRecs := isLoadingRecs s; selectedGenres := f (selectedGenres s);
       minRating := minRating s; era := era s; genres := genres s;
       userRatings := userRatings s; ratingsPrototype := ratingsPrototype s;
       activeTab := activeTab s;
       watchlist := watchlist s; ratingModal := ratingModal s;
       tempRating := tempRating s |})).

Definition setMinRating (v : float) : js world unit :=
  modify (on_state (fun s =>
    {| user := user s; userStats := userStats s; recommendations := recommendations s;
       isLoadingRecs := isLoadingRecs s; selectedGenres := selectedGenres s;
       minRating := v; era := era s; genres := genres s;
       userRatings := userRatings s; ratingsPrototype := ratingsPrototype s;
       activeTab := activeTab s;
       watchlist := watchlist s; ratingModal := ratingModal s;
       tempRating := tempRating s |})).

Definition setEra (v : string) : js world unit :=
  modify (on_state (fun s =>
    {| user := user s; userStats := userStats s; recommendations := recommendations s;
       isLoadingRecs := isLoadingRecs s; selectedGenres := selectedGenres s;
       minRating := minRating s; era := v; genres := genres s;
       userRatings := userRatings s; ratingsPrototype := ratingsPrototype s;
       activeTab := activeTab s;
       watchlist := watchlist s; ratingModal := ratingModal s;
       tempRating := tempRating s |})).

Definition setGenres (v : jsval) : js world unit :=
  modify (on_state (fun s =>
    {| user := user s; userStats := userStats s; recommendations := recommendations s;
       isLoadingRecs := isLoadingRecs s; selectedGenres := selectedGenres s;
       minRating := minRating s; era := era s; genres := v;
       userRatings := userRatings s; ratingsPrototype := ratingsPrototype s;
       activeTab := activeTab s;
       watchlist := watchlist s; ratingModal := ratingModal s;
       tempRating := tempRating s |})).

(** The object in the [userRatings] cell. *)
Definition ratings_object (s : state) : plain_object :=
  {| own := userRatings s; proto := ratingsPrototype s |}.

(** [setUserRatings(prev => f(prev))]; [setUserRatings(m)] is the constant
    update. *)
Definition setUserRatings (f : plain_object -> plain_object) : js world unit :=
  modify (on_state (fun s =>
    {| user := user s; userStats := userStats s; recommendations := recommendations s;
       isLoadingRecs := isLoadingRecs s; selectedGenres := selectedGenres s;
       minRating := minRating s; era := era s; genres := genres s;
       userRatings := own (f (ratings_object s));
       ratingsPrototype := proto (f (ratings_object s));
       activeTab := activeTab s;
       watchlist := watchlist s; ratingModal := ratingModal s;
       tempRating := tempRating s |})).

Definition setActiveTab (v : string) : js world unit :=
  modify (on_state (fun s =>
    {| user := user s; userStats := userStats s; recommendations := recommendations s;
       isLoadingRecs := isLoadingRecs s; selectedGenres := selectedGenres s;
       minRating := minRating s; era := era s; genres := genres s;
       userRatings := userRatings s; ratingsPrototype := ratingsPrototype s;
       activeTab := v;
       watchlist := watchlist s; ratingModal := ratingModal s;
       tempRating := tempRating s |})).

Definition setWatchlist (v : jsval) : js world unit :=
  modify (on_state (fun s =>
    {| user := user s; userStats := userStats s; recommendations := recommendations s;
       isLoadingRecs := isLoadingRecs s; selectedGenres := selectedGenres s;
       minRating := minRating s; era := era s; genres := genres s;
       userRatings := userRatings s; ratingsPrototype := ratingsPrototype s;
       activeTab := activeTab s;
       watchlist := v; ratingModal := ratingModal s;
       tempRating := tempRating s |})).

Definition setRatingModal (v : modal) : js world unit :=
  modify (on_state (fun s =>
    {| user := user s; userStats := userStats s; recommendations := recommendations s;
       isLoadingRecs := isLoadingRecs s; selectedGenres := selectedGenres s;
       minRating := minRating s; era := era s; genres := genres s;
       userRatings := userRatings s; ratingsPrototype := ratingsPrototype s;
       activeTab := activeTab s;
       watchlist := watchlist s; ratingModal := v;
       tempRating := tempRating s |})).

Definition setTempRating (v : jsval) : js world unit :=
  modify (on_state (fun s =>
    {| user := user s; userStats := userStats s; recommendations := recommendations s;
       isLoadingRecs := isLoadingRecs s; selectedGenres := selectedGenres s;
       minRating := minRating s; era := era s; genres := genres s;
       userRatings := userRatings s; ratingsPrototype := ratingsPrototype s;
       activeTab := activeTab s;
       watchlist := watchlist s; ratingModal := ratingModal s;
       tempRating := v |})).

(** [localStorage.removeItem] of both records ([handleLogout]). *)
Definition clear_storage : js world unit :=
  modify (fun w =>
    {| st := st w; local_storage := {| token := None; user_record := None |};
       in_flight := in_flight w; next_id := next_id w; trace := trace w |}).

(** The stored token counts as present when it is a non-empty string. *)
Definition token_present (ls : storage) : bool :=
  match token ls with
  | Some t => negb (String.eqb t "")
  | None => false
  end.

(** The five values a star button passes to [onRate]. *)
Inductive star : Type := Star1 | Star2 | Star3 | Star4 | Star5.

Definition star_value (s : star) : float :=
  match s with
  | Star1 => 1 | Star2 => 2 | Star3 => 3 | Star4 => 4 | Star5 => 5
  end%float.

(** [toggleGenre]'s update of the selection:
    [prev.includes(genre) ? prev.filter(g => g !== genre) : [...prev, genre]]. *)
Definition toggleGenre_update (genre : string) (prev : list string) : list string :=
  if bool_decide (genre ∈ prev)
  then filter (fun g => g ≠ genre) prev
  else prev ++ [genre].

(** A request fails when [fetch] rejects or the response is not [ok]. *)
Definition failed (o : outcome) : bool :=
  match o with
  | NetworkError => true
  | Response ok _ => negb ok
  end.

(** Every cell of the state but the loading flag. *)
Definition data_cells (s : state) :=
  (user s, userStats s, recommendations s, selectedGenres s, minRating s,
   era s, genres s, userRatings s, ratingsPrototype s, activeTab s,
   watchlist s, ratingModal s, tempRating s).

(** The effects that send a request. *)
Definition is_fetch (e : effect) : bool :=
  match e with
  | Fetch _ _ => true
  | _ => false
  end.

(** The effects that redirect to the login page. *)
Definition is_login_redirect (e : effect) : bool :=
  match e with
  | Navigate path => String.eqb path "/login"
  | _ => false
  end.

(** The requests among a list of effects. *)
Definition requests (es : list effect) : list request :=
  omap (fun e => match e with Fetch _ r => Some r | _ => None end) es.

(** Storage after a login, storage with no session, and storage after a
    login whose response had a token and no [user]. *)
Definition signed_in : storage :=
  {| token := Some "eyJhbGciOi";
     user_record := Some (Normal (JObj [("username", JStr "ann"); ("name", JStr "Ann")])) |}.


Definition signed_out : storage := {| token := None; user_record := None |}.

(** A movie as the service lists it, a response to rating it, and a world
    whose rating map holds a 4 for it. *)
Definition shawshank : jsval :=
  JObj [("movie_id", JStr "tt0111161"); ("title", JStr "The Shawshank Redemption")].

Definition rated : jsval :=
  JObj [("user_stats", JObj [("user_mean", JNum 4); ("rating_count", JNum 1)])].

Definition rated_four : world :=
  exec (setUserRatings (fun _ => literal_with empty_object "tt0111161" (JNum 4)))
       (start signed_in).

(** The property name of an identifier that is a string: the conversion is
    the identity on strings.  It serves the concrete examples, whose
    identifiers are strings. *)
Definition string_key (v : jsval) : string :=
  match v with
  | JStr s => s
  | _ => ""
  end.

Section Controller.

(** [NODE_ENV] selects the service's address ([config.js]). *)
Variable NODE_ENV : string.

(** The language's conversion of a value to a property name, which
    [userRatings[id]], [ratingsMap[id] = ...] and [{ ...prev, [id]: rating }]
    apply to the movie identifier. *)
Variable prop_key : jsval -> string.

Definition API_URL : string :=
  if String.eqb NODE_ENV "production"
  then "https://movie-recommender-api-0sbx.onrender.com"
  else "http://localhost:5000".

(** The header every authenticated call builds:
    [Bearer ${localStorage.getItem('token')}]. *)
Definition bearer : js world (option (option string)) :=
  gets (fun w => Some (token (local_storage w))).

(** *** [fetchGenres] *)

Definition genres_request : request :=
  {| url := API_URL ++ "/api/genres"; method := GET; content_json := false;
     authorization := None; body := None |}.

Definition fetchGenres : js world unit :=
  send genres_request AfterGenres.

Definition fetchGenres_settled (o : outcome) : js world unit :=
  try_catch
    ('(_, data) ← await_json o;
     g ← lift (get_prop data "genres");
     setGenres g)
    (emit (ConsoleError "Failed to fetch genres:")).

(** *** [fetchUserStats] *)

Definition fetchUserStats : js world unit :=
  auth ← bearer;
  send {| url := API_URL ++ "/api/user/stats"; method := GET; content_json := false;
          authorization := auth; body := None |} AfterUserStats.

Definition fetchUserStats_settled (o : outcome) : js world unit :=
  try_catch
    ('(ok, data) ← await_json o;
     if (ok : bool) then
       rs ← lift (get_prop data "rating_stats");
       mean ← lift (get_prop rs "user_mean");
       rs' ← lift (get_prop data "rating_stats");
       total ← lift (get_prop rs' "total_ratings");
       setUserStats {| user_mean := js_or mean (JNum 3.5);
                       rating_count := js_or total (JNum 0) |}
     else mret tt)
    (emit (ConsoleError "Failed to fetch user stats:")).

(** *** [fetchUserRatings] *)

Definition fetchUserRatings : js world unit :=
  auth ← bearer;
  send {| url := API_URL ++ "/api/ratings"; method := GET; content_json := false;
          authorization := auth; body := None |} AfterUserRatings.

(** The body of [data.ratings.forEach]: [ratingsMap[r.movie_id] = r.rating]
    for each element in turn. *)
Fixpoint fill_ratings (rs : list jsval) (ratingsMap : plain_object)
    : completion plain_object :=
  match rs with
  | [] => Normal ratingsMap
  | r :: rest =>
      match get_prop r "movie_id", get_prop r "rating" with
      | Normal id, Normal rating => fill_ratings rest (assign ratingsMap (prop_key id) rating)
      | _, _ => Throw
      end
  end.

Definition fetchUserRatings_settled (o : outcome) : js world unit :=
  try_catch
    ('(ok, data) ← await_json o;
     if (ok : bool) then
       rs ← lift (get_prop data "ratings");
       items ← lift (for_each rs);
       ratingsMap ← lift (fill_ratings items empty_object);
       setUserRatings (fun _ => ratingsMap)
     else mret tt)
    (emit (ConsoleError "Failed to fetch ratings:")).

(** *** [fetchWatchlist] *)

Definition fetchWatchlist : js world unit :=
  auth ← bearer;
  send {| url := API_URL ++ "/api/watchlist"; method := GET; content_json := false;
          authorization := auth; body := None |} AfterWatchlist.

Definition fetchWatchlist_settled (o : outcome) : js world unit :=
  try_catch
    ('(ok, data) ← await_json o;
     if (ok : bool) then
       wl ← lift (get_prop data "watchlist");
       setWatchlist wl
     else mret tt)
    (emit (ConsoleError "Failed to fetch watchlist:")).

(** *** [fetchRecommendations] *)

(** The object handed to [JSON.stringify] as the request's body; what is
    sent is [JSON_stringify] of it. *)
Definition recommend_body (s : state) : jsval :=
  JObj [("user_mean", user_mean (userStats s));
        ("genres", JArr (JStr <$> selectedGenres s));
        ("min_rating", JNum (minRating s));
        ("era", JStr (era s));
        ("limit", JNum 20)].

Definition fetchRecommendations : js world unit :=
  s ← gets st;
  setIsLoadingRecs true;;
  send {| url := API_URL ++ "/api/recommend"; method := POST; content_json := true;
          authorization := None; body := Some (recommend_body s) |}
       AfterRecommendations.

Definition fetchRecommendations_settled (o : outcome) : js world unit :=
  try_finally
    (try_catch
       ('(ok, data) ← await_json o;
        if (ok : bool) then
          recs ← lift (get_prop data "recommendations");
          setRecommendations recs
        else mret tt)
       (emit (ConsoleError "Failed to fetch recommendations:")))
    (setIsLoadingRecs false).

(** *** [rateMovie] *)

Definition rateMovie (movieId rating : jsval) : js world unit :=
  auth ← bearer;
  send {| url := API_URL ++ "/api/ratings"; method := POST; content_json := true;
          authorization := auth;
          body := Some (JObj [("movie_id", movieId); ("rating", rating)]) |}
       (AfterRate movieId rating).

Definition rateMovie_settled (movieId rating : jsval) (o : outcome) : js world unit :=
  try_catch
    ('(ok, data) ← await_json o;
     if (ok : bool) then
       setUserRatings (fun prev => literal_with prev (prop_key movieId) rating);;
       us ← lift (get_prop data "user_stats");
       mean ← lift (get_prop us "user_mean");
       us' ← lift (get_prop data "user_stats");
       count ← lift (get_prop us' "rating_count");
       setUserStats {| user_mean := mean; rating_count := count |};;
       setRatingModal closed_modal
     else mret tt)
    (emit (ConsoleError "Failed to rate movie:")).

(** *** [addToWatchlist] *)

Definition addToWatchlist (movieId : jsval) : js world unit :=
  auth ← bearer;
  send {| url := API_URL ++ "/api/watchlist"; method := POST; content_json := true;
          authorization := auth;
          body := Some (JObj [("movie_id", movieId)]) |}
       AfterAddToWatchlist.

Definition addToWatchlist_settled (o : outcome) : js world unit :=
  try_catch
    (ok ← await_fetch o;
     if (ok : bool) then fetchWatchlist else mret tt)
    (emit (ConsoleError "Failed to add to watchlist:")).

(** *** The effect run on mount *)

(** [if (token && userData) { setUser(JSON.parse(userData)); ... }
    else { navigate('/login') }  fetchGenres()].  No handler surrounds
    [JSON.parse]: when it throws, the effect ends there. *)
Definition mount : js world unit :=
  ls ← gets local_storage;
  match token_present ls, user_record ls with
  | true, Some parsed =>
      u ← lift parsed;
      setUser u;;
      fetchUserStats;;
      fetchUserRatings;;
      fetchWatchlist
  | _, _ => emit (Navigate "/login")
  end;;
  fetchGenres.

(** *** Event handlers of the rendered tree *)

Definition toggleGenre (genre : string) : js world unit :=
  setSelectedGenres (toggleGenre_update genre).

Definition handleLogout : js world unit :=
  emit (RemoveItem "token");;
  emit (RemoveItem "user");;
  clear_storage;;
  emit (Navigate "/login").

(** The "Rate" / "Update Rating" button of a movie card. *)
Definition open_rating_modal (m : jsval) : js world unit :=
  s ← gets st;
  id ← lift (get_prop m "movie_id");
  setTempRating (js_or (read_property (ratings_object s) (prop_key id)) (JNum 0));;
  setRatingModal {| show := true; movie := m |}.

(** The modal is rendered when [ratingModal.show && ratingModal.movie]. *)
Definition modal_rendered (s : state) : bool :=
  show (ratingModal s) && truthy (movie (ratingModal s)).

(** A star of the modal's selector. *)
Definition select_star (n : star) : js world unit :=
  s ← gets st;
  if modal_rendered s then setTempRating (JNum (star_value n)) else mret tt.

(** The modal's "Cancel" button. *)
Definition cancel_rating : js world unit :=
  s ← gets st;
  if modal_rendered s then setRatingModal closed_modal else mret tt.

(** The modal's "Save Rating" button: [disabled] while [tempRating === 0],
    otherwise [rateMovie(ratingModal.movie.movie_id, tempRating)]. *)
Definition save_rating : js world unit :=
  s ← gets st;
  if modal_rendered s && negb (strict_eq_num (tempRating s) 0) then
    id ← lift (get_prop (movie (ratingModal s)) "movie_id");
    rateMovie id (tempRating s)
  else mret tt.

(** The "Get Recommendations" button: [disabled] while [isLoadingRecs]. *)
Definition get_recommendations_button : js world unit :=
  s ← gets st;
  if isLoadingRecs s then mret tt else fetchRecommendations.

(** The "+" button of a movie card. *)
Definition add_button (m : jsval) : js world unit :=
  id ← lift (get_prop m "movie_id");
  addToWatchlist id.

(** *** The controller as a machine *)

Definition settled (k : pending_call) (o : outcome) : js world unit :=
  match k with
  | AfterGenres => fetchGenres_settled o
  | AfterUserStats => fetchUserStats_settled o
  | AfterUserRatings => fetchUserRatings_settled o
  | AfterWatchlist => fetchWatchlist_settled o
  | AfterRecommendations => fetchRecommendations_settled o
  | AfterRate movieId rating => rateMovie_settled movieId rating o
  | AfterAddToWatchlist => addToWatchlist_settled o
  end.

(** Request [id] is no longer in flight. *)
Definition retire (id : nat) (w : world) : world :=
  {| st := st w; local_storage := local_storage w;
     in_flight := delete id (in_flight w);
     next_id := next_id w; trace := trace w |}.

(** Request [id] settles with [o]: its continuation runs, once. *)
Definition settle (id : nat) (o : outcome) : js world unit :=
  w ← gets (fun w => w);
  match in_flight w !! id with
  | Some k => modify (retire id);; settled k o
  | None => mret tt
  end.

(** What can happen to the controller: it is mounted, a request settles,
    [fetchRecommendations] is called (by whatever caller), or the user
    acts on the rendered tree. *)
Inductive event : Type :=
  | Mount
  | Settle (id : nat) (o : outcome)
  | CallFetchRecommendations
  | ClickGetRecommendations
  | ClickGenre (genre : string)
  | ChangeEra (v : string)
  | ChangeMinRating (v : float)
  | ClickTab (tab : string)
  | ClickRate (m : jsval)
  | ClickStar (n : star)
  | ClickCancel
  | ClickSave
  | ClickAdd (m : jsval)
  | ClickLogout.

Definition handle (e : event) : js world unit :=
  match e with
  | Mount => mount
  | Settle id o => settle id o
  | CallFetchRecommendations => fetchRecommendations
  | ClickGetRecommendations => get_recommendations_button
  | ClickGenre genre => toggleGenre genre
  | ChangeEra v => setEra v
  | ChangeMinRating v => setMinRating v
  | ClickTab tab => setActiveTab tab
  | ClickRate m => open_rating_modal m
  | ClickStar n => select_star n
  | ClickCancel => cancel_rating
  | ClickSave => save_rating
  | ClickAdd m => add_button m
  | ClickLogout => handleLogout
  end.

(** Events are handled one at a time, each to completion; an exception that
    escapes a handler ends that handler only.  (After an exception in the
    effect run on mount React takes the component down, so that no further
    event reaches it: a run then goes on where the program does not.) *)
Definition run (es : list event) (w : world) : world :=
  foldl (fun w e => exec (handle e) w) w es.

End Controller.

End Dashboard.

(** ** Strings as code units, and the regular expressions of [signup.js] *)

Module Regex.

(** A string is its sequence of UTF-16 code units; [length] is
    [String.prototype.length].  [code_units] gives those of an ASCII
    literal. *)
Definition code_units (s : string) : list N :=
  Ascii.N_of_ascii <$> String.list_ascii_of_string s.

Definition in_range (lo hi c : N) : bool := (lo <=? c)%N && (c <=? hi)%N.

(** [[a-z]], [[A-Z]] and [\d]. *)
Definition lower (c : N) : bool := in_range 97 122 c.
Definition upper (c : N) : bool := in_range 65 90 c.
Definition digit (c : N) : bool := in_range 48 57 c.

(** The line terminators: LF, CR, LS, PS. *)
Definition line_terminator (c : N) : bool :=
  (c =? 10)%N || (c =? 13)%N || (c =? 8232)%N || (c =? 8233)%N.

(** [\s], which is also what [trim] strips: the white space code points
    (TAB, VT, FF, SP, NBSP, ZWNBSP and the space separators) and the line
    terminators. *)
Definition space (c : N) : bool :=
  (c =? 9)%N || (c =? 11)%N || (c =? 12)%N || (c =? 32)%N || (c =? 160)%N
  || (c =? 5760)%N || in_range 8192 8202 c || (c =? 8239)%N || (c =? 8287)%N
  || (c =? 12288)%N || (c =? 65279)%N || line_terminator c.

(** [.] without the [s] flag. *)
Definition dot (c : N) : bool := negb (line_terminator c).

(** The constructs the program's patterns are written with: a class or a
    literal character, sequence, [a*], [(?=a)], [^] and [$]. *)
Inductive regex : Type :=
  | Chr (p : N -> bool)
  | Seq (a b : regex)
  | Star (a : regex)
  | Look (a : regex)
  | Bol
  | Eol.

(** [a+]. *)
Definition Plus (a : regex) : regex := Seq a (Star a).

(** Zero or more rounds of [step], each consuming something, then [k].
    [test] only asks whether some match exists, so the order in which the
    alternatives are tried does not show. *)
Fixpoint star_from (step : (nat -> list N -> bool) -> nat -> list N -> bool)
    (k : nat -> list N -> bool) (fuel : nat) (i : nat) (s : list N) : bool :=
  k i s
  || match fuel with
     | O => false
     | S fuel' =>
         step (fun i' s' => (length s' <? length s)%nat && star_from step k fuel' i' s') i s
     end.

(** Backtracking matcher: [r] matches at index [i], where [s] is what is
    left of the input, and [k] accepts the rest. *)
Fixpoint matches_at (r : regex) (k : nat -> list N -> bool) (i : nat) (s : list N) : bool :=
  match r with
  | Chr p =>
      match s with
      | c :: s' => p c && k (S i) s'
      | [] => false
      end
  | Seq a b => matches_at a (matches_at b k) i s
  | Star a => star_from (matches_at a) k (length s) i s
  | Look a => matches_at a (fun _ _ => true) i s && k i s
  | Bol => (i =? 0)%nat && k i s
  | Eol =>
      match s with
      | [] => k i s
      | _ :: _ => false
      end
  end.

(** A match starting at index [i] or later. *)
Fixpoint search (r : regex) (i : nat) (s : list N) : bool :=
  matches_at r (fun _ _ => true) i s
  || match s with
     | [] => false
     | _ :: s' => search r (S i) s'
     end.

(** [r.test(s)] for a pattern without flags. *)
Definition test (r : regex) (s : list N) : bool := search r 0 s.

Fixpoint trim_start (s : list N) : list N :=
  match s with
  | c :: s' => if space c then trim_start s' else s
  | [] => []
  end.

(** [s.trim()]. *)
Definition trim (s : list N) : list N := rev (trim_start (rev (trim_start s))).

(** [!s] on a string. *)
Definition empty (s : list N) : bool :=
  match s with
  | [] => true
  | _ :: _ => false
  end.

End Regex.

(** ** The registration form ([signup.js]) *)

Module Signup.
Import Regex.

(** The five inputs of the form, by their [name] attribute. *)
Inductive input : Type := Name | Username | Email | Password | ConfirmPassword.

Definition input_name (i : input) : string :=
  match i with
  | Name => "name"
  | Username => "username"
  | Email => "email"
  | Password => "password"
  | ConfirmPassword => "confirmPassword"
  end.

(** [formData]. *)
Record form : Type := {
  username : list N;
  email : list N;
  password : list N;
  confirmPassword : list N;
  name : list N
}.

(** [{ ...prev, [name]: value }]. *)
Definition set_input (i : input) (value : list N) (prev : form) : form :=
  match i with
  | Name =>
      {| username := username prev; email := email prev; password := password prev;
         confirmPassword := confirmPassword prev; name := value |}
  | Username =>
      {| username := value; email := email prev; password := password prev;
         confirmPassword := confirmPassword prev; name := name prev |}
  | Email =>
      {| username := username prev; email := value; password := password prev;
         confirmPassword := confirmPassword prev; name := name prev |}
  | Password =>
      {| username := username prev; email := email prev; password := value;
         confirmPassword := confirmPassword prev; name := name prev |}
  | ConfirmPassword =>
      {| username := username prev; email := email prev; password := password prev;
         confirmPassword := value; name := name prev |}
  end.

Definition get_input (i : input) (f : form) : list N :=
  match i with
  | Name => name f
  | Username => username f
  | Email => email f
  | Password => password f
  | ConfirmPassword => confirmPassword f
  end.

(** The component's [useState] cells; [errors] is the object of messages
    by field name. *)
Record state : Type := {
  formData : form;
  errors : gmap string string;
  isLoading : bool;
  successMessage : string
}.

Definition initial : state :=
  {| formData := {| username := []; email := []; password := [];
                    confirmPassword := []; name := [] |};
     errors := ∅;
     isLoading := false;
     successMessage := "" |}.

Record world : Type := {
  st : state;
  trace : list effect
}.

Definition start : world := {| st := initial; trace := [] |}.

Definition on_state (f : state -> state) (w : world) : world :=
  {| st := f (st w); trace := trace w |}.

Definition setFormData (f : form -> form) : js world unit :=
  modify (on_state (fun s =>
    {| formData := f (formData s); errors := errors s;
       isLoading := isLoading s; successMessage := successMessage s |})).

Definition setErrors (f : gmap string string -> gmap string string) : js world unit :=
  modify (on_state (fun s =>
    {| formData := formData s; errors := f (errors s);
       isLoading := isLoading s; successMessage := successMessage s |})).

Definition setIsLoading (b : bool) : js world unit :=
  modify (on_state (fun s =>
    {| formData := formData s; errors := errors s;
       isLoading := b; successMessage := successMessage s |})).

Definition setSuccessMessage (m : string) : js world unit :=
  modify (on_state (fun s =>
    {| formData := formData s; errors := errors s;
       isLoading := isLoading s; successMessage := m |})).

(** [errors[name]] as a condition: a message that is not empty. *)
Definition has_message (es : gmap string string) (key : string) : bool :=
  match es !! key with
  | Some m => negb (String.eqb m "")
  | None => false
  end.

(** [handleChange], for the input [i] holding [value]. *)
Definition handleChange (i : input) (value : list N) : js world unit :=
  s ← gets st;
  setFormData (set_input i value);;
  if has_message (errors s) (input_name i)
  then setErrors (fun prev => <[input_name i := ""]> prev)
  else mret tt.

(** [/^[a-zA-Z0-9_]+$/]. *)
Definition word (c : N) : bool := lower c || upper c || digit c || (c =? 95)%N.
Definition username_pattern : regex := Seq Bol (Seq (Plus (Chr word)) Eol).

(** [/^[^\s@]+@[^\s@]+\.[^\s@]+$/]. *)
Definition address_char (c : N) : bool := negb (space c || (c =? 64)%N).
Definition email_pattern : regex :=
  Seq Bol
    (Seq (Plus (Chr address_char))
       (Seq (Chr (N.eqb 64))
          (Seq (Plus (Chr address_char))
             (Seq (Chr (N.eqb 46))
                (Seq (Plus (Chr address_char)) Eol))))).

(** [/(?=.*[a-z])/], [/(?=.*[A-Z])/] and [/(?=.*\d)/]. *)
Definition ahead (p : N -> bool) : regex := Look (Seq (Star (Chr dot)) (Chr p)).

(** [/[^a-zA-Z0-9]/]. *)
Definition special (c : N) : bool := negb (lower c || upper c || digit c).

(** The rules of [validate], one chain of conditions per field: the
    message for the field, if any. *)
Definition username_error (f : form) : option string :=
  if empty (trim (username f)) then Some "Username is required"
  else if (length (username f) <? 3)%nat then Some "Username must be at least 3 characters"
  else if (20 <? length (username f))%nat then Some "Username must be less than 20 characters"
  else if negb (test username_pattern (username f))
  then Some "Username can only contain letters, numbers, and underscores"
  else None.

Definition email_error (f : form) : option string :=
  if empty (trim (email f)) then Some "Email is required"
  else if negb (test email_pattern (email f)) then Some "Please enter a valid email address"
  else None.

Definition password_error (f : form) : option string :=
  if empty (password f) then Some "Password is required"
  else if (length (password f) <? 8)%nat then Some "Password must be at least 8 characters"
  else if negb (test (ahead lower) (password f))
  then Some "Password must contain at least one lowercase letter"
  else if negb (test (ahead upper) (password f))
  then Some "Password must contain at least one uppercase letter"
  else if negb (test (ahead digit) (password f))
  then Some "Password must contain at least one number"
  else None.

Definition confirm_error (f : form) : option string :=
  if empty (confirmPassword f) then Some "Please confirm your password"
  else if negb (bool_decide (password f = confirmPassword f)) then Some "Passwords do not match"
  else None.

Definition name_error (f : form) : option string :=
  if empty (trim (name f)) then Some "Name is required"
  else if (length (name f) <? 2)%nat then Some "Name must be at least 2 characters"
  else None.

(** The rule of each input. *)
Definition field_error (i : input) (f : form) : option string :=
  match i with
  | Name => name_error f
  | Username => username_error f
  | Email => email_error f
  | Password => password_error f
  | ConfirmPassword => confirm_error f
  end.

(** [newErrors.key = message] when the rule gives one. *)
Definition record_error (key : string) (e : option string)
    (newErrors : gmap string string) : gmap string string :=
  match e with
  | Some message => <[key := message]> newErrors
  | None => newErrors
  end.

(** [newErrors] as [validate] builds it. *)
Definition validation_errors (f : form) : gmap string string :=
  let newErrors := ∅ in
  let newErrors := record_error "username" (username_error f) newErrors in
  let newErrors := record_error "email" (email_error f) newErrors in
  let newErrors := record_error "password" (password_error f) newErrors in
  let newErrors := record_error "confirmPassword" (confirm_error f) newErrors in
  let newErrors := record_error "name" (name_error f) newErrors in
  newErrors.

(** [validate]. *)
Definition validate : js world bool :=
  s ← gets st;
  let newErrors := validation_errors (formData s) in
  setErrors (fun _ => newErrors);;
  mret (size newErrors =? 0)%nat.

(** [handleSubmit]: the request it once sent is commented out in the
    source. *)
Definition handleSubmit : js world unit :=
  valid ← validate;
  if negb valid then mret tt
  else
    setIsLoading true;;
    setSuccessMessage "".

(** What [getPasswordStrength] returns; [label] and [color] are array
    reads, [None] standing for [undefined]. *)
Record strength_info : Type := {
  strength : nat;
  label : option string;
  color : option string
}.

Definition labels : list string :=
  [""; "Weak"; "Fair"; "Good"; "Strong"; "Very Strong"].

Definition colors : list string :=
  [""; "bg-red-500"; "bg-orange-500"; "bg-yellow-500"; "bg-green-500"; "bg-emerald-500"].

Definition getPasswordStrength (f : form) : strength_info :=
  let password := password f in
  if empty password then {| strength := 0; label := Some ""; color := None |}
  else
    let strength := 0 in
    let strength := if (8 <=? length password)%nat then S strength else strength in
    let strength := if test (Chr lower) password then S strength else strength in
    let strength := if test (Chr upper) password then S strength else strength in
    let strength := if test (Chr digit) password then S strength else strength in
    let strength := if test (Chr special) password then S strength else strength in
    {| strength := strength; label := labels !! strength; color := colors !! strength |}.

(** The form's events: typing in an input, submitting. *)
Inductive event : Type :=
  | Change (i : input) (value : list N)
  | Submit.

Definition handle (e : event) : js world unit :=
  match e with
  | Change i value => handleChange i value
  | Submit => handleSubmit
  end.

Definition run (es : list event) (w : world) : world :=
  foldl (fun w e => exec (handle e) w) w es.

End Signup.

(** ** Sample data *)

Module Samples.
Import Regex.

(** A list of ratings as the service returns it, the first movie twice. *)
Definition ratings_listed : jsval :=
  JObj [("ratings",
         JArr [JObj [("movie_id", JStr "tt0111161"); ("rating", JNum 3)];
               JObj [("movie_id", JStr "tt0068646"); ("rating", JNum 5)];
               JObj [("movie_id", JStr "tt0111161"); ("rating", JNum 4)]])].

(** A registration form that passes every rule. *)
Definition filled_form : Signup.form :=
  {| Signup.username := code_units "ann_lee";
     Signup.email := code_units "ann@example.org";
     Signup.password := code_units "Sup3rSecret";
     Signup.confirmPassword := code_units "Sup3rSecret";
     Signup.name := code_units "Ann Lee" |}.

Definition filled : Signup.world :=
  {| Signup.st :=
       {| Signup.formData := filled_form; Signup.errors := ∅;
          Signup.isLoading := false; Signup.successMessage := "" |};
     Signup.trace := [] |}.

End Samples.

(** * Properties *)

(** ** Values *)


Lemma star_value_not_zero (n : Dashboard.star) :
  strict_eq_num (JNum (Dashboard.star_value n)) 0 = false.
Proof. destruct n; reflexivity. Qed.

Lemma js_or_truthy (a b : jsval) : truthy a = true -> js_or a b = a.
Proof. unfold js_or. intros ->. reflexivity. Qed.

(** [||] and [??] agree except on a left operand that is falsy without
    being [undefined] or [null]. *)
Lemma js_or_nullish (a b : jsval) :
  truthy a = true \/ a = JUndefined \/ a = JNull -> js_or a b = nullish a b.
Proof.
  intros [Ht | [-> | ->]]; try reflexivity.
  rewrite js_or_truthy by assumption.
  destruct a; simpl in *; congruence.
Qed.

(** [JSON.stringify] returns [undefined] for the values it leaves out of an
    object, and for no other. *)
Lemma stringify_omitted (v : jsval) :
  JSON_stringify v = JUndefined <-> omitted v = true.
Proof.
  destruct v as [| | | f | | | | [|]]; simpl; try (split; congruence).
  destruct (PrimFloat.is_finite f), (PrimFloat.is_zero f); split; congruence.
Qed.

Lemma stringify_cons (k : string) (x : jsval) (rest : list (string * jsval)) :
  JSON_stringify (JObj ((k, x) :: rest))
  = match JSON_stringify x, JSON_stringify (JObj rest) with
    | JUndefined, r => r
    | y, JObj fs => JObj ((k, y) :: fs)
    | _, r => r
    end.
Proof. simpl. destruct (JSON_stringify x); reflexivity. Qed.

Lemma stringify_kept (k : string) (x : jsval) (rest : list (string * jsval)) :
  omitted x = false ->
  JSON_stringify (JObj ((k, x) :: rest))
  = match JSON_stringify (JObj rest) with
    | JObj fs => JObj ((k, JSON_stringify x) :: fs)
    | r => r
    end.
Proof.
  intros H. rewrite stringify_cons.
  destruct (JSON_stringify x) eqn:E; try reflexivity.
  apply stringify_omitted in E. congruence.
Qed.

Lemma stringify_dropped (k : string) (x : jsval) (rest : list (string * jsval)) :
  omitted x = true ->
  JSON_stringify (JObj ((k, x) :: rest)) = JSON_stringify (JObj rest).
Proof.
  intros H. rewrite stringify_cons.
  apply stringify_omitted in H. rewrite H. reflexivity.
Qed.

Lemma stringify_strings (l : list string) :
  JSON_stringify (JArr (JStr <$> l)) = JArr (JStr <$> l).
Proof.
  simpl. f_equal. induction l as [|x l IH]; simpl; [reflexivity |].
  f_equal. exact IH.
Qed.

Lemma number_not_omitted (f : float) : omitted (JSON_stringify (JNum f)) = false.
Proof.
  simpl. destruct (PrimFloat.is_finite f), (PrimFloat.is_zero f); reflexivity.
Qed.


Lemma inherited_truthy (k : string) :
  k = "__proto__" \/ k ∈ object_prototype_names ->
  truthy (inherited_member ObjectProto k) = true.
Proof.
  intros H. cbv [inherited_member object_prototype_member].
  destruct (String.eqb k "__proto__") eqn:E; [reflexivity |].
  destruct H as [-> | H]; [discriminate E |].
  rewrite bool_decide_eq_true_2 by exact H. reflexivity.
Qed.




(** An assignment to [__proto__] on an object a literal created stores no
    own property. *)
Lemma assign_proto_setter (m : gmap string jsval) (v : jsval) :
  m !! "__proto__" = None ->
  own (assign {| own := m; proto := ObjectProto |} "__proto__" v) = m.
Proof.
  intros H. unfold assign. simpl. rewrite H. simpl.
  destruct v; reflexivity.
Qed.

(** Evaluation of monadic code: unfold the monad's operations, leaving
    property reads and map operations in place. *)
Ltac js_monad :=
  cbv [exec mbind js_bind mret js_ret modify gets lift throw try_catch
       try_finally await_json await_fetch fst snd].

Ltac login_eval :=
  cbv [Login.submit_then_settle Login.handleLogin Login.handleLogin_settled
       Login.setUsernameError Login.setPasswordError Login.setInvalidCredentials
       Login.setIsLoading Login.emit Login.set_in_flight Login.on_state
       Login.st Login.in_flight Login.trace Login.userNameError
       Login.passwordError Login.invalidCredentials Login.isLoading
       exec mbind js_bind mret js_ret modify gets lift throw try_catch
       try_finally await_json await_fetch fst snd get_prop].

(** ** The login handler *)

Section LoginProperties.
Import Login.

(** C9.  A failed login response that carries [error_username] and no
    [error_password] sets the username field's error to the message and
    leaves the password field's error empty: both were reset when the form
    was submitted, and each is then set from its own field of the
    response. *)
Theorem login_failure_marks_username_only
    (w : world) (username password msg : string) (fs : list (string * jsval)) :
  username <> "" ->
  password <> "" ->
  field "error_username" fs = JStr msg ->
  field "error_password" fs = JUndefined ->
  let w' := submit_then_settle username password (Response false (Some (JObj fs))) w in
  userNameError (st w') = JStr msg /\ passwordError (st w') = JStr "".
Proof.
  intros Hu Hp Heu Hep w'. subst w'.
  apply String.eqb_neq in Hu, Hp.
  login_eval. rewrite Hu, Hp. login_eval. rewrite Hep, Heu.
  destruct (truthy (JStr msg)) eqn:Hm; login_eval.
  - split; reflexivity.
  - simpl in Hm. apply negb_false_iff, String.eqb_eq in Hm. subst msg.
    split; reflexivity.
Qed.

Lemma login_failure_marks_username_only_witness :
  let w' := submit_then_settle "ann" "secret"
              (Response false (Some (JObj [("error_username", JStr "Username is required")])))
              start in
  userNameError (st w') = JStr "Username is required" /\ passwordError (st w') = JStr "".
Proof.
  apply (login_failure_marks_username_only start "ann" "secret" "Username is required");
    first [ discriminate | reflexivity ].
Defined.

End LoginProperties.

(** ** The dashboard controller *)

Ltac dash_eval :=
  cbv [Dashboard.run Dashboard.handle Dashboard.settle Dashboard.retire
       Dashboard.settled
       Dashboard.mount Dashboard.toggleGenre Dashboard.handleLogout
       Dashboard.open_rating_modal Dashboard.modal_rendered
       Dashboard.select_star Dashboard.cancel_rating Dashboard.save_rating
       Dashboard.get_recommendations_button Dashboard.add_button
       Dashboard.fetchGenres Dashboard.fetchGenres_settled
       Dashboard.genres_request
       Dashboard.fetchUserStats Dashboard.fetchUserStats_settled
       Dashboard.fetchUserRatings Dashboard.fetchUserRatings_settled
       Dashboard.fetchWatchlist Dashboard.fetchWatchlist_settled
       Dashboard.fetchRecommendations Dashboard.fetchRecommendations_settled
       Dashboard.rateMovie Dashboard.rateMovie_settled
       Dashboard.addToWatchlist Dashboard.addToWatchlist_settled
       Dashboard.bearer Dashboard.send Dashboard.emit Dashboard.on_state
       Dashboard.clear_storage Dashboard.closed_modal
       Dashboard.setUser Dashboard.setUserStats Dashboard.setRecommendations
       Dashboard.setIsLoadingRecs Dashboard.setSelectedGenres
       Dashboard.setMinRating Dashboard.setEra Dashboard.setGenres
       Dashboard.setUserRatings Dashboard.setActiveTab Dashboard.setWatchlist
       Dashboard.setRatingModal Dashboard.setTempRating
       Dashboard.st Dashboard.local_storage Dashboard.in_flight
       Dashboard.next_id Dashboard.trace
       Dashboard.user Dashboard.userStats Dashboard.recommendations
       Dashboard.isLoadingRecs Dashboard.selectedGenres Dashboard.minRating
       Dashboard.era Dashboard.genres Dashboard.userRatings
       Dashboard.ratingsPrototype Dashboard.ratings_object
       own proto literal_with
       Dashboard.activeTab Dashboard.watchlist Dashboard.ratingModal
       Dashboard.tempRating Dashboard.show Dashboard.movie
       Dashboard.user_mean Dashboard.rating_count
       Dashboard.token Dashboard.user_record Dashboard.data_cells
       Dashboard.token_present
       foldl andb negb
       exec mbind js_bind mret js_ret modify gets lift throw try_catch
       try_finally await_json await_fetch fst snd].

(** Case analysis on whatever the evaluation is stuck on. *)
Ltac dash_stuck x :=
  lazymatch x with
  | get_prop _ _ => idtac
  | for_each _ => idtac
  | Dashboard.fill_ratings _ _ _ => idtac
  | truthy _ => idtac
  | strict_eq_num _ _ => idtac
  | String.eqb _ _ => idtac
  | @lookup _ _ _ _ _ _ => idtac
  end.

Ltac dash_cases :=
  repeat (dash_eval;
          match goal with
          | |- context [match ?x with _ => _ end] =>
              first [ is_var x; destruct x | dash_stuck x; destruct x eqn:? ]
          end);
  dash_eval.

Section DashboardProperties.
Import Dashboard.

Variable NODE_ENV : string.
Variable prop_key : jsval -> string.

(** *** Rating a movie *)

(** C1.  When the rating request of [rateMovie(m, r)] gets a successful
    response carrying [user_stats], the rating map then holds [r] for [m]
    and the profile statistics are exactly the two values of the response;
    nothing is computed from the previous statistics.  The rating is any
    value, the five star values among them. *)
Theorem rate_success_stores_rating_and_response_stats
    (w : world) (movieId rating data us mean count : jsval) :
  get_prop data "user_stats" = Normal us ->
  get_prop us "user_mean" = Normal mean ->
  get_prop us "rating_count" = Normal count ->
  let w1 := exec (rateMovie NODE_ENV movieId rating) w in
  let w2 := exec (settle NODE_ENV prop_key (next_id w) (Response true (Some data))) w1 in
  userRatings (st w2) !! prop_key movieId = Some rating
  /\ userStats (st w2) = {| user_mean := mean; rating_count := count |}.
Proof.
  intros Hus Hmean Hcount w1 w2. subst w1 w2.
  destruct w as [s ls fl n tr]. dash_eval.
  rewrite lookup_insert_eq.
  dash_eval. rewrite Hus, Hmean, Hcount.
  split; [apply lookup_insert_eq | reflexivity].
Qed.

(** *** Recommendations *)

Lemma settle_in_flight (id : nat) (k : pending_call) (o : outcome) (w : world) :
  in_flight w !! id = Some k ->
  exec (settle NODE_ENV prop_key id o) w
  = exec (settled NODE_ENV prop_key k o) (retire id w).
Proof.
  intros H. cbv [settle]. js_monad. rewrite H. reflexivity.
Qed.

Lemma settle_unknown (id : nat) (o : outcome) (w : world) :
  in_flight w !! id = None -> exec (settle NODE_ENV prop_key id o) w = w.
Proof.
  intros H. cbv [settle]. js_monad. rewrite H. reflexivity.
Qed.

Lemma fetchRecommendations_in_flight (w : world) :
  in_flight (exec (fetchRecommendations NODE_ENV) w)
  = <[next_id w := AfterRecommendations]> (in_flight w)
  /\ next_id (exec (fetchRecommendations NODE_ENV) w) = S (next_id w).
Proof. destruct w as [s ls fl n tr]. split; reflexivity. Qed.

Lemma recommendations_settled_in_flight (o : outcome) (w : world) :
  in_flight (exec (fetchRecommendations_settled o) w) = in_flight w.
Proof.
  destruct w as [s ls fl n tr], o as [|[] [d|]]; dash_eval; try reflexivity.
  destruct (get_prop d "recommendations"); reflexivity.
Qed.

Lemma recommendations_settled_success (data recs : jsval) (w : world) :
  get_prop data "recommendations" = Normal recs ->
  recommendations (st (exec (fetchRecommendations_settled (Response true (Some data))) w))
  = recs.
Proof.
  intros H. destruct w as [s ls fl n tr]. dash_eval. rewrite H. reflexivity.
Qed.

(** While a recommendation request is loading, the button that calls
    [fetchRecommendations] is disabled. *)
Lemma get_recommendations_disabled_while_loading (w : world) :
  isLoadingRecs (st w) = true ->
  exec (get_recommendations_button NODE_ENV) w = w.
Proof.
  intros H. destruct w as [[] ls fl n tr]. cbn in H. subst.
  reflexivity.
Qed.

(** C2.  Two calls of [fetchRecommendations] before either request settles
    leave both requests in flight (the first is not cancelled by the second,
    nor by the second's settling); when the first-issued request settles
    last, with a successful response, the list shown is that response's
    list, whatever the second request returned. *)
Theorem last_settled_recommendations_win
    (w : world) (o2 : outcome) (data1 recs1 : jsval) :
  get_prop data1 "recommendations" = Normal recs1 ->
  let first := next_id w in
  let second := S first in
  let w2 := run NODE_ENV prop_key [CallFetchRecommendations; CallFetchRecommendations] w in
  let w3 := run NODE_ENV prop_key [Settle second o2] w2 in
  let w4 := run NODE_ENV prop_key [Settle first (Response true (Some data1))] w3 in
  in_flight w2 !! first = Some AfterRecommendations
  /\ in_flight w2 !! second = Some AfterRecommendations
  /\ in_flight w3 !! first = Some AfterRecommendations
  /\ recommendations (st w4) = recs1.
Proof.
  intros Hrecs first second w2 w3 w4.
  assert (H2 : in_flight w2 = <[second := AfterRecommendations]>
                               (<[first := AfterRecommendations]> (in_flight w))).
  { subst w2 second first. cbv [run foldl handle].
    destruct (fetchRecommendations_in_flight (exec (fetchRecommendations NODE_ENV) w))
      as [E1 _].
    destruct (fetchRecommendations_in_flight w) as [E0 N0].
    rewrite E1, N0, E0. reflexivity. }
  assert (Hs2 : in_flight w2 !! second = Some AfterRecommendations).
  { rewrite H2. apply lookup_insert_eq. }
  assert (H3 : in_flight w3 = delete second (in_flight w2)).
  { subst w3. cbv [run foldl handle].
    rewrite (settle_in_flight _ _ _ _ Hs2). cbv [settled].
    rewrite recommendations_settled_in_flight. reflexivity. }
  assert (Hf3 : in_flight w3 !! first = Some AfterRecommendations).
  { rewrite H3, H2. subst second.
    rewrite lookup_delete_ne by lia.
    rewrite lookup_insert_ne by lia. apply lookup_insert_eq. }
  split; [|split; [|split]].
  - rewrite H2. subst second. rewrite lookup_insert_ne by lia. apply lookup_insert_eq.
  - exact Hs2.
  - exact Hf3.
  - subst w4. cbv [run foldl handle].
    rewrite (settle_in_flight _ _ _ _ Hf3). cbv [settled].
    apply recommendations_settled_success, Hrecs.
Qed.

(** What each handler adds to the trace: nothing is ever removed, and a
    request to [/api/recommend] among the additions is the one
    [fetchRecommendations] builds from the state the handler starts in. *)
Lemma handle_recommend_requests (e : event) (w : world) :
  exists added,
    trace (exec (handle NODE_ENV prop_key e) w) = (trace w ++ added)%list
    /\ forall r, r ∈ requests added ->
         url r = API_URL NODE_ENV ++ "/api/recommend" ->
         body r = Some (recommend_body (st w))
         /\ method r = POST /\ authorization r = None.
Proof.
  destruct w as [[? ? ? ? ? ? ? ? ? ? ? ? [sh mv] ?] [tok ur] fl n tr], e;
    dash_cases;
    (first [ exists []; split; [symmetry; apply app_nil_r |]
           | eexists; split; [rewrite <- ?app_assoc; reflexivity |] ]);
    intros r Hr Hurl; cbn in Hr;
    repeat (apply elem_of_cons in Hr as [-> | Hr]);
    try (apply elem_of_nil in Hr; contradiction);
    cbn in Hurl;
    first [ apply (inj (String.app _)) in Hurl; discriminate Hurl
          | repeat split ].
Qed.

(** Every request to [/api/recommend] sent during a run was built from the
    state the controller was in when the event that sent it arrived. *)
Lemma run_recommend_requests (es : list event) (w : world) (r : request) :
  r ∈ requests (trace (run NODE_ENV prop_key es w)) ->
  url r = API_URL NODE_ENV ++ "/api/recommend" ->
  r ∈ requests (trace w)
  \/ exists es1 e es2,
       es = (es1 ++ e :: es2)%list
       /\ body r = Some (recommend_body (st (run NODE_ENV prop_key es1 w)))
       /\ method r = POST /\ authorization r = None.
Proof.
  revert w. induction es as [|e es IH]; intros w Hr Hurl; [left; exact Hr |].
  destruct (IH _ Hr Hurl) as [Hr' | (es1 & e' & es2 & -> & Hb)].
  - destruct (handle_recommend_requests e w) as (added & Htrace & Hadded).
    rewrite Htrace in Hr'. unfold requests in Hr'.
    rewrite omap_app, elem_of_app in Hr'.
    destruct Hr' as [Hr' | Hr']; [left; exact Hr' |].
    right. exists [], e, es. split; [reflexivity |].
    apply Hadded; assumption.
  - right. exists (e :: es1), e', es2. split; [reflexivity | exact Hb].
Qed.

(** The text sent for the body of a recommendation request, when the stored
    mean is a value [JSON.stringify] writes. *)
Lemma stringify_recommend_body (s : state) :
  omitted (user_mean (userStats s)) = false ->
  JSON_stringify (recommend_body s)
  = JObj [("user_mean", JSON_stringify (user_mean (userStats s)));
          ("genres", JArr (JStr <$> selectedGenres s));
          ("min_rating", JSON_stringify (JNum (minRating s)));
          ("era", JStr (era s));
          ("limit", JNum 20)].
Proof.
  intros H. unfold recommend_body.
  rewrite (stringify_kept _ _ _ H).
  rewrite (stringify_kept "genres") by reflexivity.
  rewrite (stringify_kept "min_rating") by reflexivity.
  rewrite stringify_strings. reflexivity.
Qed.

(** The text sent when the stored mean is one [JSON.stringify] leaves
    out. *)
Lemma stringify_recommend_body_without_mean (s : state) :
  omitted (user_mean (userStats s)) = true ->
  JSON_stringify (recommend_body s)
  = JObj [("genres", JArr (JStr <$> selectedGenres s));
          ("min_rating", JSON_stringify (JNum (minRating s)));
          ("era", JStr (era s));
          ("limit", JNum 20)].
Proof.
  intros H. unfold recommend_body.
  rewrite (stringify_dropped _ _ _ H).
  rewrite (stringify_kept "genres") by reflexivity.
  rewrite (stringify_kept "min_rating") by reflexivity.
  rewrite stringify_strings. reflexivity.
Qed.

Lemma recommend_limit (s : state) :
  get_prop (JSON_stringify (recommend_body s)) "limit" = Normal (JNum 20).
Proof.
  destruct (omitted (user_mean (userStats s))) eqn:H.
  - rewrite (stringify_recommend_body_without_mean s H). reflexivity.
  - rewrite (stringify_recommend_body s H). reflexivity.
Qed.

(** C3, as the code has it.  A call of [fetchRecommendations] sends one
    request, a POST to [/api/recommend] without a bearer token, whose body
    is [JSON.stringify] of the object with the fields [user_mean], [genres],
    [min_rating], [era] and [limit], taken from the profile statistics and
    the filters of the current state, [limit] being 20.  When the stored
    mean is a value [JSON.stringify] writes (any but [undefined] and a
    function), the text sent has exactly those five fields, in that order,
    with those values; [limit] is sent as 20 whatever the state.  With the
    state as it is initially the body carries exactly the initial values.
    Every request to [/api/recommend] sent in any run of the controller was
    built in that way from the state the controller was in when the request
    was sent, and the button sends what [fetchRecommendations] sends.  The
    list a successful response returns is stored as it is. *)
Theorem recommendation_request_carries_filters
    (w : world) (ls : storage) (fs : list (string * jsval)) (es : list event) :
  trace (exec (fetchRecommendations NODE_ENV) w)
  = (trace w ++
     [Fetch (next_id w)
        {| url := API_URL NODE_ENV ++ "/api/recommend";
           method := POST;
           content_json := true;
           authorization := None;
           body := Some (JObj [("user_mean", user_mean (userStats (st w)));
                               ("genres", JArr (JStr <$> selectedGenres (st w)));
                               ("min_rating", JNum (minRating (st w)));
                               ("era", JStr (era (st w)));
                               ("limit", JNum 20)]) |}])%list
  /\ (omitted (user_mean (userStats (st w))) = false ->
      JSON_stringify (recommend_body (st w))
      = JObj [("user_mean", JSON_stringify (user_mean (userStats (st w))));
              ("genres", JArr (JStr <$> selectedGenres (st w)));
              ("min_rating", JSON_stringify (JNum (minRating (st w))));
              ("era", JStr (era (st w)));
              ("limit", JNum 20)])
  /\ get_prop (JSON_stringify (recommend_body (st w))) "limit" = Normal (JNum 20)
  /\ sent_body <$> requests (trace (exec (fetchRecommendations NODE_ENV) (start ls)))
     = [Some (JObj [("user_mean", JNum 3.5);
                    ("genres", JArr []);
                    ("min_rating", JNum 3.5);
                    ("era", JStr "any");
                    ("limit", JNum 20)])]
  /\ (forall r, r ∈ requests (trace (run NODE_ENV prop_key es (start ls))) ->
        url r = API_URL NODE_ENV ++ "/api/recommend" ->
        exists es1 e es2,
          es = (es1 ++ e :: es2)%list
          /\ sent_body r
             = Some (JSON_stringify
                       (recommend_body (st (run NODE_ENV prop_key es1 (start ls)))))
          /\ method r = POST /\ authorization r = None)
  /\ (isLoadingRecs (st w) = false ->
      exec (get_recommendations_button NODE_ENV) w
      = exec (fetchRecommendations NODE_ENV) w)
  /\ recommendations
       (st (exec (fetchRecommendations_settled (Response true (Some (JObj fs)))) w))
     = field "recommendations" fs.
Proof.
  split; [| split; [| split; [| split; [| split; [| split]]]]].
  - destruct w as [s l fl n tr]. reflexivity.
  - apply stringify_recommend_body.
  - apply recommend_limit.
  - reflexivity.
  - intros r Hr Hurl.
    destruct (run_recommend_requests es (start ls) r Hr Hurl)
      as [H | (es1 & e & es2 & Hes & Hb & Hm & Ha)].
    + cbn in H. apply elem_of_nil in H. contradiction.
    + exists es1, e, es2. unfold sent_body. rewrite Hb. repeat split; assumption.
  - intros H. destruct w as [[] l fl n tr]. cbn in H. subst. reflexivity.
  - apply recommendations_settled_success. reflexivity.
Qed.

(** *** Profile statistics *)

(** C4, as the code has it.  A successful refresh replaces the statistics
    with [user_mean || 3.5] and [total_ratings || 0]: each default applies
    whenever the field of the response is falsy, that is absent, [null],
    zero, [NaN], the empty string or [false]. *)
Theorem stats_refresh_defaults_on_falsy
    (w : world) (data rs mean total : jsval) :
  get_prop data "rating_stats" = Normal rs ->
  get_prop rs "user_mean" = Normal mean ->
  get_prop rs "total_ratings" = Normal total ->
  userStats (st (exec (fetchUserStats_settled (Response true (Some data))) w))
  = {| user_mean := if truthy mean then mean else JNum 3.5;
       rating_count := if truthy total then total else JNum 0 |}.
Proof.
  intros Hrs Hmean Htotal. destruct w as [s ls fl n tr].
  dash_eval. rewrite Hrs, Hmean, Htotal. reflexivity.
Qed.

(** The stored statistics of C4 agree with the [??] reading whenever each
    field is absent, [null] or truthy; a count of zero is stored as zero
    under both readings. *)
Lemma stats_refresh_agrees_with_nullish
    (w : world) (data rs mean total : jsval) :
  get_prop data "rating_stats" = Normal rs ->
  get_prop rs "user_mean" = Normal mean ->
  get_prop rs "total_ratings" = Normal total ->
  truthy mean = true \/ mean = JUndefined \/ mean = JNull ->
  truthy total = true \/ total = JUndefined \/ total = JNull \/ total = JNum 0 ->
  userStats (st (exec (fetchUserStats_settled (Response true (Some data))) w))
  = {| user_mean := nullish mean (JNum 3.5);
       rating_count := nullish total (JNum 0) |}.
Proof.
  intros Hrs Hmean Htotal Hm Ht. destruct w as [s ls fl n tr].
  dash_eval. rewrite Hrs, Hmean, Htotal. f_equal.
  - apply (js_or_nullish mean (JNum 3.5) Hm).
  - destruct Ht as [Ht | [Ht | [Ht | ->]]]; [| | | reflexivity];
      apply (js_or_nullish total (JNum 0)); tauto.
Qed.

(** *** Genre selection *)

Lemma toggle_update_elem (g x : string) (l : list string) :
  x ∈ toggleGenre_update g l <-> (x = g /\ g ∉ l) \/ (x <> g /\ x ∈ l).
Proof.
  unfold toggleGenre_update. case_bool_decide as Hg.
  - rewrite list_elem_of_filter. split.
    + intros [Hx Hl]. right. split; assumption.
    + intros [[_ Hn] | H]; [contradiction | exact H].
  - rewrite elem_of_app, list_elem_of_singleton. split.
    + intros [Hl | ->]; [right | left]; split; try assumption; try reflexivity.
      intros ->. contradiction.
    + intros [[-> _] | [_ Hl]]; [right | left]; trivial.
Qed.

Lemma toggle_update_NoDup (g : string) (l : list string) :
  NoDup l -> NoDup (toggleGenre_update g l).
Proof.
  intros Hl. unfold toggleGenre_update. case_bool_decide as Hg.
  - apply NoDup_filter, Hl.
  - apply NoDup_app. split; [exact Hl | split].
    + intros x Hx Hx'. apply list_elem_of_singleton in Hx'. subst x. contradiction.
    + apply NoDup_singleton.
Qed.

(** Only a click on a genre changes the selection. *)
Lemma handle_selection (e : event) (w : world) :
  selectedGenres (st (exec (handle NODE_ENV prop_key e) w))
  = match e with
    | ClickGenre g => toggleGenre_update g (selectedGenres (st w))
    | _ => selectedGenres (st w)
    end.
Proof.
  destruct w as [[] [tok ur] fl n tr], e; dash_cases; reflexivity.
Qed.

Lemma selection_NoDup (es : list event) (w : world) :
  NoDup (selectedGenres (st w)) ->
  NoDup (selectedGenres (st (run NODE_ENV prop_key es w))).
Proof.
  revert w. induction es as [|e es IH]; intros w Hw; [exact Hw |].
  apply IH. rewrite handle_selection.
  destruct e; try exact Hw. apply toggle_update_NoDup, Hw.
Qed.

(** C5.  Clicking a genre removes it from the selection when it is there
    and adds it otherwise, leaves every other genre as it was, and keeps a
    duplicate-free selection duplicate-free; clicking it twice gives back a
    selection with the same members; and whatever the events since the
    controller started, the selection holds no genre twice. *)
Theorem toggle_genre_twice_same_selection
    (w : world) (g : string) (es : list event) (ls : storage) :
  let selection w := selectedGenres (st w) in
  let w1 := exec (toggleGenre g) w in
  let w2 := exec (toggleGenre g) w1 in
  (forall x, x ∈ selection w2 <-> x ∈ selection w)
  /\ (g ∈ selection w1 <-> g ∉ selection w)
  /\ (forall x, x <> g -> x ∈ selection w1 <-> x ∈ selection w)
  /\ (NoDup (selection w) -> NoDup (selection w1))
  /\ NoDup (selection (run NODE_ENV prop_key es (start ls))).
Proof.
  intros selection w1 w2.
  assert (H1 : selection w1 = toggleGenre_update g (selection w)).
  { subst selection w1. destruct w as [s l fl n tr]. reflexivity. }
  assert (H2 : selection w2 = toggleGenre_update g (selection w1)).
  { subst selection w2. destruct w1 as [s l fl n tr]. reflexivity. }
  split; [|split; [|split; [|split]]].
  - intros x. rewrite H2, toggle_update_elem, H1, !toggle_update_elem.
    destruct (decide (x = g)) as [-> | Hx], (decide (g ∈ selection w)); tauto.
  - rewrite H1, toggle_update_elem. tauto.
  - intros x Hx. rewrite H1, toggle_update_elem. tauto.
  - rewrite H1. apply toggle_update_NoDup.
  - apply selection_NoDup. apply NoDup_nil_2.
Qed.

(** *** Start-up *)

(** C6.  When the stored token is absent (or empty) as the controller
    starts, the effect run on mount redirects to the login page exactly
    once and sends one request only, the genre fetch, which bears no token:
    no refresh of statistics, ratings or watchlist is sent or left in
    flight, and no request carries a bearer header built from a missing
    token. *)
Theorem mount_without_token_redirects_once (ls : storage) :
  token_present ls = false ->
  let w := exec (mount NODE_ENV) (start ls) in
  trace w = [Navigate "/login"; Fetch 0 (genres_request NODE_ENV)]
  /\ in_flight w = <[0 := AfterGenres]> ∅
  /\ Forall (fun r => authorization r = None) (requests (trace w))
  /\ length (List.filter is_login_redirect (trace w)) = 1.
Proof.
  intros Htok w. subst w. destruct ls as [tok ur].
  assert (E : exec (mount NODE_ENV) (start {| token := tok; user_record := ur |})
              = exec (emit (Navigate "/login");; fetchGenres NODE_ENV)
                     (start {| token := tok; user_record := ur |})).
  { cbv [mount]. js_monad. cbv [local_storage start].
    rewrite Htok. reflexivity. }
  rewrite E. repeat split.
  repeat constructor.
Qed.


(** *** The rating modal *)




(** Once a star is chosen in the open modal, "Save Rating" sends the
    rating of that star for the movie of the modal. *)
Lemma save_after_star (w : world) (m id : jsval) (n : star) :
  get_prop m "movie_id" = Normal id ->
  truthy m = true ->
  run NODE_ENV prop_key [ClickRate m; ClickStar n; ClickSave] w
  = exec (rateMovie NODE_ENV id (JNum (star_value n)))
      (run NODE_ENV prop_key [ClickRate m; ClickStar n] w).
Proof.
  intros Hid Hm. destruct w as [[] ls fl n0 tr].
  dash_eval. rewrite Hid. dash_eval. rewrite Hm. dash_eval. rewrite Hm.
  fold (strict_eq_num (JNum (star_value n)) 0).
  rewrite star_value_not_zero. rewrite Hid. reflexivity.
Qed.


(** *** Failures *)

(** C8.  For each of the six operations (the three refreshes, the
    recommendation request, rating, adding to the watchlist), a request
    that fails (the fetch rejects or the response is not ok, whatever its
    body) leaves every cell of the state as it was, but for the loading
    flag that the recommendation request resets; it sends nothing further.
    Sending the request changed no cell either, the loading flag apart, so
    nothing was applied ahead of the response: a failed rating leaves the
    rating map exactly as it was before the call. *)
Theorem failure_leaves_state_unchanged
    (k : pending_call) (o : outcome) (w : world) (movieId rating : jsval) :
  failed o = true ->
  k <> AfterGenres ->
  let w' := exec (settled NODE_ENV prop_key k o) w in
  data_cells (st w') = data_cells (st w)
  /\ (k = AfterRecommendations \/ st w' = st w)
  /\ in_flight w' = in_flight w
  /\ requests (trace w') = requests (trace w)
  /\ Forall (fun call => data_cells (st (exec call w)) = data_cells (st w))
       [fetchUserStats NODE_ENV; fetchUserRatings NODE_ENV;
        fetchWatchlist NODE_ENV; fetchRecommendations NODE_ENV;
        rateMovie NODE_ENV movieId rating; addToWatchlist NODE_ENV movieId]
  /\ userRatings
       (st (exec (settle NODE_ENV prop_key (next_id w) o)
              (exec (rateMovie NODE_ENV movieId rating) w)))
     = userRatings (st w).
Proof.
  intros Hfail Hk w'. subst w'.
  assert (Hcalls :
    Forall (fun call => data_cells (st (exec call w)) = data_cells (st w))
      [fetchUserStats NODE_ENV; fetchUserRatings NODE_ENV;
       fetchWatchlist NODE_ENV; fetchRecommendations NODE_ENV;
       rateMovie NODE_ENV movieId rating; addToWatchlist NODE_ENV movieId]).
  { destruct w as [[] ls fl n tr]. repeat constructor. }
  assert (Hrate :
    userRatings
      (st (exec (settle NODE_ENV prop_key (next_id w) o)
             (exec (rateMovie NODE_ENV movieId rating) w)))
    = userRatings (st w)).
  { destruct w as [[] ls fl n tr].
    rewrite (settle_in_flight _ (AfterRate movieId rating))
      by (cbn; apply lookup_insert_eq).
    destruct o as [|[] [d|]]; try discriminate Hfail; reflexivity. }
  destruct w as [[] ls fl n tr].
  destruct k; try contradiction;
    destruct o as [|[] [d|]]; try discriminate Hfail;
    dash_eval; unfold requests; rewrite ?omap_app, ?app_nil_r;
    repeat split; auto.
Qed.

End DashboardProperties.

(** ** Concrete instances *)

Section Instances.
Import Dashboard.

Lemma rate_success_stores_rating_and_response_stats_witness :
  let w1 := exec (rateMovie "development" (JStr "tt0111161") (JNum 4)) (start signed_in) in
  let w2 := exec (settle "development" string_key 0 (Response true (Some rated))) w1 in
  userRatings (st w2) !! "tt0111161" = Some (JNum 4)
  /\ userStats (st w2) = {| user_mean := JNum 4; rating_count := JNum 1 |}.
Proof.
  apply (rate_success_stores_rating_and_response_stats "development" string_key
           (start signed_in) (JStr "tt0111161") (JNum 4) rated
           (JObj [("user_mean", JNum 4); ("rating_count", JNum 1)])
           (JNum 4) (JNum 1));
    reflexivity.
Defined.

Lemma last_settled_recommendations_win_witness :
  let first := JObj [("recommendations", JArr [JStr "Heat"])] in
  let second := JObj [("recommendations", JArr [JStr "Alien"])] in
  let w := start signed_in in
  let w2 := run "development" string_key
              [CallFetchRecommendations; CallFetchRecommendations] w in
  let w3 := run "development" string_key
              [Settle 1 (Response true (Some second))] w2 in
  let w4 := run "development" string_key
              [Settle 0 (Response true (Some first))] w3 in
  recommendations (st w4) = JArr [JStr "Heat"].
Proof.
  exact (proj2 (proj2 (proj2
    (last_settled_recommendations_win "development" string_key (start signed_in)
       (Response true (Some (JObj [("recommendations", JArr [JStr "Alien"])])))
       (JObj [("recommendations", JArr [JStr "Heat"])])
       (JArr [JStr "Heat"]) eq_refl)))).
Defined.

(** C4 as the specification words it fails: a successful response whose
    [user_mean] is 0 stores 3.5, where the [??] reading would keep the 0. *)
Lemma stats_refresh_replaces_zero_mean :
  let data := JObj [("rating_stats",
                     JObj [("user_mean", JNum 0); ("total_ratings", JNum 0)])] in
  let stored :=
    userStats (st (exec (fetchUserStats_settled (Response true (Some data)))
                     (start signed_in))) in
  stored = {| user_mean := JNum 3.5; rating_count := JNum 0 |}
  /\ stored <> {| user_mean := nullish (JNum 0) (JNum 3.5);
                  rating_count := nullish (JNum 0) (JNum 0) |}.
Proof.
  split; [reflexivity |].
  intros H. apply (f_equal (fun s => truthy (user_mean s))) in H.
  vm_compute in H. discriminate H.
Qed.

Lemma stats_refresh_defaults_on_falsy_witness :
  let data := JObj [("rating_stats",
                     JObj [("user_mean", JNum 4.5); ("total_ratings", JNull)])] in
  userStats (st (exec (fetchUserStats_settled (Response true (Some data)))
                   (start signed_in)))
  = {| user_mean := if truthy (JNum 4.5) then JNum 4.5 else JNum 3.5;
       rating_count := if truthy JNull then JNull else JNum 0 |}.
Proof.
  apply (stats_refresh_defaults_on_falsy (start signed_in)
           (JObj [("rating_stats",
                   JObj [("user_mean", JNum 4.5); ("total_ratings", JNull)])])
           (JObj [("user_mean", JNum 4.5); ("total_ratings", JNull)])
           (JNum 4.5) JNull);
    reflexivity.
Defined.

Lemma toggle_genre_twice_same_selection_witness :
  let w := exec (toggleGenre "Drama") (start signed_in) in
  NoDup (selectedGenres (st (exec (toggleGenre "Comedy") w))).
Proof.
  refine (proj1 (proj2 (proj2 (proj2
    (toggle_genre_twice_same_selection "development" string_key
       (exec (toggleGenre "Drama") (start signed_in)) "Comedy" [] signed_in)))) _).
  vm_compute. apply NoDup_singleton.
Defined.

Lemma mount_without_token_redirects_once_witness :
  let w := exec (mount "development") (start signed_out) in
  trace w = [Navigate "/login"; Fetch 0 (genres_request "development")]
  /\ in_flight w = <[0 := AfterGenres]> ∅
  /\ Forall (fun r => authorization r = None) (requests (trace w))
  /\ length (List.filter is_login_redirect (trace w)) = 1.
Proof.
  apply (mount_without_token_redirects_once "development" signed_out).
  reflexivity.
Defined.



(** C3 as the specification words it fails: after a successful rating whose
    response has [user_stats] without [user_mean], the mean stored is
    [undefined], and the body of the next recommendation request, as sent,
    has four fields and no [user_mean]. *)
Lemma recommendation_body_without_user_mean :
  let reply := Response true (Some (JObj [("user_stats", JObj [])])) in
  let w := run "development" string_key
             [ClickRate shawshank; ClickStar Star4; ClickSave; Settle 0 reply;
              ClickGetRecommendations]
             (start signed_in) in
  user_mean (userStats (st w)) = JUndefined
  /\ sent_body <$> requests (trace w)
     = [Some (JObj [("movie_id", JStr "tt0111161"); ("rating", JNum 4)]);
        Some (JObj [("genres", JArr []);
                    ("min_rating", JNum 3.5);
                    ("era", JStr "any");
                    ("limit", JNum 20)])]
  /\ (forall r, last (requests (trace w)) = Some r ->
        url r = API_URL "development" ++ "/api/recommend"
        /\ (field_names <$> sent_body r) = Some ["genres"; "min_rating"; "era"; "limit"]).
Proof.
  split; [reflexivity | split; [reflexivity |]].
  intros r H. vm_compute in H. injection H as <-. split; reflexivity.
Qed.



Lemma failure_leaves_state_unchanged_witness :
  let w' := exec (settled "development" string_key
                    (AfterRate (JStr "tt0111161") (JNum 2))
                    (Response false (Some (JObj [("error", JStr "Invalid token")]))))
              rated_four in
  data_cells (st w') = data_cells (st rated_four).
Proof.
  refine (proj1
    (failure_leaves_state_unchanged "development" string_key
       (AfterRate (JStr "tt0111161") (JNum 2))
       (Response false (Some (JObj [("error", JStr "Invalid token")])))
       rated_four (JStr "tt0111161") (JNum 2) eq_refl _)).
  discriminate.
Defined.

End Instances.

(** ** Further properties of the dashboard controller *)

Section DashboardCoverage.
Import Dashboard.

Variable NODE_ENV : string.
Variable prop_key : jsval -> string.

(** *** Refreshing the rating map *)


Lemma get_prop_throws (v : jsval) (k : string) :
  v = JNull \/ v = JUndefined -> get_prop v k = Throw.
Proof. intros [-> | ->]; reflexivity. Qed.



Lemma fill_ratings_throws (xs : list jsval) (m : plain_object) :
  Exists (fun r => r = JNull \/ r = JUndefined) xs ->
  fill_ratings prop_key xs m = Throw.
Proof.
  intros H. revert m. induction H as [x xs Hx | x xs _ IH]; intros m; cbn.
  - rewrite (get_prop_throws x "movie_id" Hx). reflexivity.
  - destruct (get_prop x "movie_id"), (get_prop x "rating"); auto.
Qed.






(** An entry keyed [__proto__] in the list of a refresh leaves no rating
    under that name: with a number as its rating the map is as if the entry
    were not there. *)
Lemma ratings_refresh_proto_entry (w : world) (f : float) :
  let data :=
    JObj [("ratings", JArr [JObj [("movie_id", JStr "__proto__");
                                  ("rating", JNum f)]])] in
  let w' := exec (fetchUserRatings_settled string_key (Response true (Some data))) w in
  userRatings (st w') = ∅ /\ ratingsPrototype (st w') = ObjectProto.
Proof.
  destruct w as [[] ls fl n tr]. split; reflexivity.
Qed.

(** A refresh of the ratings is all or nothing: when the list of an ok
    response holds a [null] anywhere, or [ratings] is not an array, the
    entries before it are not applied; the state is as it was and only the
    failure is logged. *)
Theorem ratings_refresh_all_or_nothing
    (w : world) (data ratings : jsval) :
  get_prop data "ratings" = Normal ratings ->
  (match ratings with
   | JArr items => Exists (fun r => r = JNull \/ r = JUndefined) items
   | _ => True
   end) ->
  let w' := exec (fetchUserRatings_settled prop_key (Response true (Some data))) w in
  st w' = st w
  /\ trace w' = (trace w ++ [ConsoleError "Failed to fetch ratings:"])%list.
Proof.
  intros Hd Hbad w'. subst w'. destruct w as [[] ls fl n tr].
  dash_eval. rewrite Hd. cbn.
  destruct ratings; try (split; reflexivity).
  cbn. rewrite (fill_ratings_throws items empty_object Hbad). split; reflexivity.
Qed.

(** *** Rating: partial responses and other movies *)

(** When the response to a rating is ok but carries no [user_stats], the
    rating is stored all the same, while the statistics and the modal stay
    as they were and the failure is logged: the update of the map comes
    before the read that throws. *)
Theorem rate_ok_without_stats_stores_rating_only
    (w : world) (movieId rating data : jsval) :
  (match get_prop data "user_stats" with
   | Normal us => us = JNull \/ us = JUndefined
   | Throw => True
   end) ->
  let w' := exec (rateMovie_settled prop_key movieId rating (Response true (Some data))) w in
  userRatings (st w') = <[prop_key movieId := rating]> (userRatings (st w))
  /\ userStats (st w') = userStats (st w)
  /\ ratingModal (st w') = ratingModal (st w)
  /\ trace w' = (trace w ++ [ConsoleError "Failed to rate movie:"])%list.
Proof.
  intros Hus w'. subst w'. destruct w as [[] ls fl n tr]. dash_eval.
  destruct (get_prop data "user_stats") as [us|]; [| repeat split].
  rewrite (get_prop_throws us "user_mean" Hus). repeat split.
Qed.

(** Whatever the response to a rating, the ratings of all other movies
    are as they were. *)
Theorem rate_leaves_other_ratings
    (w : world) (movieId rating : jsval) (o : outcome) (k : string) :
  k <> prop_key movieId ->
  userRatings (st (exec (rateMovie_settled prop_key movieId rating o) w)) !! k
  = userRatings (st w) !! k.
Proof.
  intros Hk. destruct w as [[] ls fl n tr], o as [|[] [d|]];
    dash_cases; try reflexivity; apply lookup_insert_ne; congruence.
Qed.

(** *** The genre catalogue *)

(** [fetchGenres] does not look at the status of the response: whenever
    the body parses to an object, its [genres] field becomes the
    catalogue, [undefined] when an error body has none.  A rejected fetch
    or an unparsable body leaves the state as it was. *)
Theorem genres_stored_whatever_the_status
    (w : world) (ok : bool) (fs : list (string * jsval)) :
  genres (st (exec (fetchGenres_settled (Response ok (Some (JObj fs)))) w))
  = field "genres" fs
  /\ st (exec (fetchGenres_settled NetworkError) w) = st w
  /\ st (exec (fetchGenres_settled (Response ok None)) w) = st w.
Proof. destruct w as [[] ls fl n tr]. repeat split. Qed.

(** *** The watchlist *)

(** A successful add changes nothing locally: it sends a fresh GET of the
    watchlist with the stored token, and the list shown is the one that
    refresh returns. *)
Theorem add_to_watchlist_refetches
    (w : world) (movieId data wl : jsval) (json : option jsval) :
  get_prop data "watchlist" = Normal wl ->
  let id := next_id w in
  let w1 := exec (addToWatchlist NODE_ENV movieId) w in
  let w2 := exec (settle NODE_ENV prop_key id (Response true json)) w1 in
  let w3 := exec (settle NODE_ENV prop_key (S id) (Response true (Some data))) w2 in
  st w2 = st w
  /\ trace w2
     = (trace w ++
        [Fetch id
           {| url := API_URL NODE_ENV ++ "/api/watchlist"; method := POST;
              content_json := true;
              authorization := Some (token (local_storage w));
              body := Some (JObj [("movie_id", movieId)]) |};
         Fetch (S id)
           {| url := API_URL NODE_ENV ++ "/api/watchlist"; method := GET;
              content_json := false;
              authorization := Some (token (local_storage w));
              body := None |}])%list
  /\ watchlist (st w3) = wl.
Proof.
  intros Hwl id w1 w2 w3. subst id w1 w2 w3.
  destruct w as [[] ls fl n tr].
  rewrite (settle_in_flight NODE_ENV prop_key n AfterAddToWatchlist)
    by (cbn; apply lookup_insert_eq).
  rewrite (settle_in_flight NODE_ENV prop_key (S n) AfterWatchlist)
    by (cbn; apply lookup_insert_eq).
  dash_eval. rewrite Hwl. rewrite <- app_assoc. repeat split.
Qed.

(** *** Leaving and starting again *)

(** Logging out empties the two records of the storage and redirects; it
    leaves the state and the requests in flight alone.  A controller
    started on the storage it leaves takes the unauthenticated path: it
    redirects and sends the genre fetch only. *)
Theorem logout_then_mount_redirects (w : world) :
  let w1 := exec handleLogout w in
  local_storage w1 = {| token := None; user_record := None |}
  /\ st w1 = st w
  /\ in_flight w1 = in_flight w
  /\ trace w1
     = (trace w ++ [RemoveItem "token"; RemoveItem "user"; Navigate "/login"])%list
  /\ trace (exec (mount NODE_ENV) (start (local_storage w1)))
     = [Navigate "/login"; Fetch 0 (genres_request NODE_ENV)].
Proof.
  intros w1. subst w1. destruct w as [[] ls fl n tr].
  dash_eval. rewrite <- !app_assoc. repeat split.
Qed.

(** With a token stored and a user record that [JSON.parse] reads, the
    effect run on mount keeps the value read as the user, redirects
    nowhere, and sends four requests in
    this order: statistics, ratings and watchlist, each with the stored
    token, then the genres without one. *)
Theorem mount_with_session_sends_four (ls : storage) (t : string) (u : jsval) :
  token ls = Some t ->
  t <> "" ->
  user_record ls = Some (Normal u) ->
  let w := exec (mount NODE_ENV) (start ls) in
  user (st w) = u
  /\ trace w
     = [Fetch 0 {| url := API_URL NODE_ENV ++ "/api/user/stats"; method := GET;
                   content_json := false; authorization := Some (Some t);
                   body := None |};
        Fetch 1 {| url := API_URL NODE_ENV ++ "/api/ratings"; method := GET;
                   content_json := false; authorization := Some (Some t);
                   body := None |};
        Fetch 2 {| url := API_URL NODE_ENV ++ "/api/watchlist"; method := GET;
                   content_json := false; authorization := Some (Some t);
                   body := None |};
        Fetch 3 (genres_request NODE_ENV)].
Proof.
  intros Ht Hne Hu w. subst w. destruct ls as [tok ur]. cbn in Ht, Hu. subst.
  apply String.eqb_neq in Hne.
  cbv [start]. dash_eval. rewrite Hne. split; reflexivity.
Qed.

(** The four requests sent on mount write to different cells of the
    state: settling two of them in either order gives the same state,
    whatever their outcomes. *)
Theorem startup_refreshes_commute
    (k1 k2 : pending_call) (o1 o2 : outcome) (w : world) :
  k1 ∈ [AfterGenres; AfterUserStats; AfterUserRatings; AfterWatchlist] ->
  k2 ∈ [AfterGenres; AfterUserStats; AfterUserRatings; AfterWatchlist] ->
  k1 <> k2 ->
  st (exec (settled NODE_ENV prop_key k1 o1) (exec (settled NODE_ENV prop_key k2 o2) w))
  = st (exec (settled NODE_ENV prop_key k2 o2) (exec (settled NODE_ENV prop_key k1 o1) w)).
Proof.
  intros H1 H2 Hne.
  repeat (apply elem_of_cons in H1 as [-> | H1]);
    try (apply elem_of_nil in H1; contradiction);
    repeat (apply elem_of_cons in H2 as [-> | H2]);
    try (apply elem_of_nil in H2; contradiction);
    try contradiction;
    destruct w as [[] ls fl n tr], o1 as [|[] [d1|]], o2 as [|[] [d2|]];
    dash_cases; reflexivity.
Qed.

(** *** Where the token goes *)

Lemma handle_bearer (e : event) (w : world) :
  exists added,
    trace (exec (handle NODE_ENV prop_key e) w) = (trace w ++ added)%list
    /\ forall r, r ∈ requests added ->
         (authorization r = None
          /\ (url r = API_URL NODE_ENV ++ "/api/genres"
              \/ url r = API_URL NODE_ENV ++ "/api/recommend"))
         \/ (authorization r = Some (token (local_storage w))
             /\ (url r = API_URL NODE_ENV ++ "/api/user/stats"
                 \/ url r = API_URL NODE_ENV ++ "/api/ratings"
                 \/ url r = API_URL NODE_ENV ++ "/api/watchlist")).
Proof.
  destruct w as [[? ? ? ? ? ? ? ? ? ? ? ? [sh mv] ?] [tok ur] fl n tr], e;
    dash_cases;
    (first [ exists []; split; [symmetry; apply app_nil_r |]
           | eexists; split; [rewrite <- ?app_assoc; reflexivity |] ]);
    intros r Hr; cbn in Hr;
    repeat (apply elem_of_cons in Hr as [-> | Hr]);
    try (apply elem_of_nil in Hr; contradiction);
    cbn; tauto.
Qed.

Lemma run_bearer (es : list event) (w : world) (r : request) :
  r ∈ requests (trace (run NODE_ENV prop_key es w)) ->
  r ∈ requests (trace w)
  \/ (authorization r = None
      /\ (url r = API_URL NODE_ENV ++ "/api/genres"
          \/ url r = API_URL NODE_ENV ++ "/api/recommend"))
  \/ (authorization r <> None
      /\ (url r = API_URL NODE_ENV ++ "/api/user/stats"
          \/ url r = API_URL NODE_ENV ++ "/api/ratings"
          \/ url r = API_URL NODE_ENV ++ "/api/watchlist")).
Proof.
  revert w. induction es as [|e es IH]; intros w Hr; [left; exact Hr |].
  destruct (IH _ Hr) as [Hin | Hnew]; [| right; exact Hnew].
  destruct (handle_bearer e w) as (added & Htrace & Hadded).
  rewrite Htrace in Hin. unfold requests in Hin.
  rewrite omap_app, elem_of_app in Hin.
  destruct Hin as [Hin | Hin]; [left; exact Hin | right].
  destruct (Hadded r Hin) as [H | [Hauth Hurl]]; [left; exact H | right].
  split; [rewrite Hauth; discriminate | exact Hurl].
Qed.

(** Over any run of the controller from its start, every request sent is
    either one to [/api/genres] or [/api/recommend] without an
    [Authorization] header, or one to [/api/user/stats], [/api/ratings] or
    [/api/watchlist] with one: the token never goes to the two open
    endpoints, and no call to the three others leaves without the
    header. *)
Theorem bearer_only_to_authenticated_endpoints
    (es : list event) (ls : storage) (r : request) :
  r ∈ requests (trace (run NODE_ENV prop_key es (start ls))) ->
  (authorization r = None
   /\ (url r = API_URL NODE_ENV ++ "/api/genres"
       \/ url r = API_URL NODE_ENV ++ "/api/recommend"))
  \/ (authorization r <> None
      /\ (url r = API_URL NODE_ENV ++ "/api/user/stats"
          \/ url r = API_URL NODE_ENV ++ "/api/ratings"
          \/ url r = API_URL NODE_ENV ++ "/api/watchlist")).
Proof.
  intros Hr. destruct (run_bearer es (start ls) r Hr) as [Hin | H]; [| exact H].
  cbn in Hin. apply elem_of_nil in Hin. contradiction.
Qed.

(** *** The rating modal, end to end *)

(** Opening the modal for a movie, choosing a star and saving sends one
    POST of that movie and that star's value with the stored token; when
    the response is ok the map holds the star's value for the movie, the
    statistics are those of the response and the modal is closed. *)
Theorem star_rating_flow
    (w : world) (m id data us mean count : jsval) (n : star) :
  get_prop m "movie_id" = Normal id ->
  truthy m = true ->
  get_prop data "user_stats" = Normal us ->
  get_prop us "user_mean" = Normal mean ->
  get_prop us "rating_count" = Normal count ->
  let w1 := run NODE_ENV prop_key [ClickRate m; ClickStar n; ClickSave] w in
  let w2 := run NODE_ENV prop_key [Settle (next_id w) (Response true (Some data))] w1 in
  trace w1
  = (trace w ++
     [Fetch (next_id w)
        {| url := API_URL NODE_ENV ++ "/api/ratings"; method := POST;
           content_json := true;
           authorization := Some (token (local_storage w));
           body := Some (JObj [("movie_id", id);
                               ("rating", JNum (star_value n))]) |}])%list
  /\ userRatings (st w2) !! prop_key id = Some (JNum (star_value n))
  /\ userStats (st w2) = {| user_mean := mean; rating_count := count |}
  /\ ratingModal (st w2) = closed_modal.
Proof.
  intros Hid Hm Hus Hmean Hcount w1 w2. subst w1 w2.
  destruct w as [[] ls fl n0 tr].
  dash_eval. rewrite Hid. dash_eval. rewrite Hm. dash_eval. rewrite Hm.
  fold (strict_eq_num (JNum (star_value n)) 0).
  rewrite star_value_not_zero. rewrite Hid. dash_eval.
  rewrite lookup_insert_eq. dash_eval. rewrite Hus, Hmean, Hcount.
  repeat split. apply lookup_insert_eq.
Qed.


(** *** The loading flag *)

(** While no request is loading, two clicks on "Get Recommendations" in
    a row send one request only; the flag is set until that request
    settles, and whatever its outcome the flag is cleared, so that the
    next click sends a request again. *)
Theorem second_click_while_loading_is_ignored (w : world) (o : outcome) :
  isLoadingRecs (st w) = false ->
  let once := run NODE_ENV prop_key [ClickGetRecommendations] w in
  let twice := run NODE_ENV prop_key [ClickGetRecommendations; ClickGetRecommendations] w in
  let after := run NODE_ENV prop_key [Settle (next_id w) o] twice in
  twice = once
  /\ isLoadingRecs (st once) = true
  /\ length (requests (trace once)) = S (length (requests (trace w)))
  /\ isLoadingRecs (st after) = false
  /\ length (requests (trace (run NODE_ENV prop_key [ClickGetRecommendations] after)))
     = S (S (length (requests (trace w)))).
Proof.
  intros Hl once twice after. subst once twice after.
  destruct w as [[] ls fl n tr]. cbn in Hl. subst.
  split; [reflexivity | split; [reflexivity |]].
  split. { dash_eval. unfold requests. rewrite omap_app, length_app. cbn. lia. }
  cbv [run foldl handle].
  rewrite (settle_in_flight NODE_ENV prop_key n AfterRecommendations)
    by (cbn; apply lookup_insert_eq).
  destruct o as [|[] [d|]]; dash_cases; unfold requests;
    rewrite ?omap_app, ?length_app; cbn; split; try reflexivity; lia.
Qed.

End DashboardCoverage.

(** ** Further properties of the login handler *)

Section LoginCoverage.
Import Login.

(** A submission with an empty field sends nothing: the three messages
    are reset, the first empty field alone gets its message (the username
    when both are empty), and the loading flag is not touched. *)
Theorem login_validation_blocks_request (w : world) (username password : string) :
  username = "" \/ password = "" ->
  let w' := exec (handleLogin username password) w in
  trace w' = trace w
  /\ in_flight w' = in_flight w
  /\ isLoading (st w') = isLoading (st w)
  /\ invalidCredentials (st w') = JStr ""
  /\ userNameError (st w')
     = JStr (if String.eqb username "" then "Username is required" else "")
  /\ passwordError (st w')
     = JStr (if String.eqb username "" then ""
             else "Password is required").
Proof.
  intros H w'. subst w'. destruct w as [[] fl tr].
  destruct (String.eqb username "") eqn:Hu.
  - login_eval. rewrite Hu. repeat split.
  - destruct H as [-> | ->]; [discriminate Hu |].
    login_eval. rewrite Hu. repeat split.
Qed.

(** A submission with both fields filled resets the three messages left
    by an earlier attempt, sets the loading flag and sends one POST to
    [/api/login] whose body is the two fields as typed, with no
    [Authorization] header. *)
Theorem login_submit_resets_and_sends (w : world) (username password : string) :
  username <> "" ->
  password <> "" ->
  let w' := exec (handleLogin username password) w in
  st w' = {| userNameError := JStr ""; passwordError := JStr "";
             invalidCredentials := JStr ""; isLoading := true |}
  /\ in_flight w' = true
  /\ trace w'
     = (trace w ++
        [Fetch 0 {| url := "http://localhost:5000/api/login"; method := POST;
                    content_json := true; authorization := None;
                    body := Some (JObj [("username", JStr username);
                                        ("password", JStr password)]) |}])%list.
Proof.
  intros Hu Hp w'. subst w'. destruct w as [[] fl tr].
  apply String.eqb_neq in Hu, Hp.
  login_eval. rewrite Hu, Hp. repeat split.
Qed.

(** A successful login stores the token and the user of the response, in
    that order, then goes to the dashboard; it sets none of the three
    messages and clears the loading flag. *)
Theorem login_success_stores_session
    (w : world) (fs : list (string * jsval)) :
  let w' := exec (handleLogin_settled (Response true (Some (JObj fs)))) w in
  trace w'
  = (trace w ++
     [SetItem "token" (Raw (field "token" fs));
      SetItem "user" (Stringified (field "user" fs));
      Navigate "/dashboard"])%list
  /\ userNameError (st w') = userNameError (st w)
  /\ passwordError (st w') = passwordError (st w)
  /\ invalidCredentials (st w') = invalidCredentials (st w)
  /\ isLoading (st w') = false
  /\ in_flight w' = false.
Proof.
  intros w'. subst w'. destruct w as [[] fl tr].
  login_eval. rewrite <- !app_assoc. repeat split.
Qed.

(** Whatever the response, the loading flag is cleared.  When there is no
    response, or its body does not parse, or it parses to [null], the
    banner reads "Network error. Please try again.", the two field
    messages stay as they were and nothing is stored or navigated to. *)
Theorem login_unreadable_response_reports_network_error
    (w : world) (o : outcome) (ok : bool) :
  isLoading (st (exec (handleLogin_settled o) w)) = false
  /\ (o = NetworkError \/ o = Response ok None \/ o = Response ok (Some JNull) ->
      let w' := exec (handleLogin_settled o) w in
      invalidCredentials (st w') = JStr "Network error. Please try again."
      /\ userNameError (st w') = userNameError (st w)
      /\ passwordError (st w') = passwordError (st w)
      /\ trace w' = (trace w ++ [ConsoleError "Error during login:"])%list).
Proof.
  destruct w as [[] fl tr]. split.
  - destruct o as [|[] [[]|]]; login_eval; try reflexivity;
      repeat (match goal with
              | |- context [truthy ?x] => destruct (truthy x)
              end; login_eval); reflexivity.
  - intros [-> | [-> | ->]] w'; subst w'; destruct ok; repeat split.
Qed.

(** A failed login whose body is an object sets each field's message from
    its own field of the response when that field is truthy, and leaves
    it as it was otherwise; the banner takes the [error] field as it is,
    [undefined] when the body has none. *)
Theorem login_failure_sets_fields_independently
    (w : world) (fs : list (string * jsval)) :
  let w' := exec (handleLogin_settled (Response false (Some (JObj fs)))) w in
  userNameError (st w')
  = (if truthy (field "error_username" fs) then field "error_username" fs
     else userNameError (st w))
  /\ passwordError (st w')
     = (if truthy (field "error_password" fs) then field "error_password" fs
        else passwordError (st w))
  /\ invalidCredentials (st w') = field "error" fs
  /\ trace w' = trace w.
Proof.
  intros w'. subst w'. destruct w as [[] fl tr]. login_eval.
  destruct (truthy (field "error_password" fs)),
           (truthy (field "error_username" fs)); repeat split.
Qed.

End LoginCoverage.

(** ** Regular expressions *)

Section RegexFacts.
Import Regex.

Lemma matches_chr_cons p k i c s :
  matches_at (Chr p) k i (c :: s) = p c && k (S i) s.
Proof. reflexivity. Qed.

Lemma matches_chr_nil p k i : matches_at (Chr p) k i [] = false.
Proof. reflexivity. Qed.

Lemma matches_seq a b k i s :
  matches_at (Seq a b) k i s = matches_at a (matches_at b k) i s.
Proof. reflexivity. Qed.

Lemma matches_star a k i s :
  matches_at (Star a) k i s = star_from (matches_at a) k (length s) i s.
Proof. reflexivity. Qed.

Lemma matches_look a k i s :
  matches_at (Look a) k i s = matches_at a (fun _ _ => true) i s && k i s.
Proof. reflexivity. Qed.

Lemma matches_bol k i s : matches_at Bol k i s = (i =? 0)%nat && k i s.
Proof. reflexivity. Qed.

Lemma matches_eol k i s : matches_at Eol k i s = empty s && k i s.
Proof. destruct s; reflexivity. Qed.

Lemma star_from_unfold step k fuel i s :
  star_from step k (S fuel) i s
  = k i s
    || step (fun i' s' => (length s' <? length s)%nat && star_from step k fuel i' s') i s.
Proof. reflexivity. Qed.

Lemma star_class (p : N -> bool) (k : nat -> list N -> bool) (fuel i : nat) (s : list N) :
  length s <= fuel ->
  star_from (matches_at (Chr p)) k fuel i s = true
  <-> exists a t, s = (a ++ t)%list /\ forallb p a = true /\ k (i + length a) t = true.
Proof.
  revert i s. induction fuel as [|fuel IH]; intros i s Hlen.
  - destruct s; [| cbn in Hlen; lia]. cbn. rewrite orb_false_r. split.
    + intros Hk. exists [], []. rewrite Nat.add_0_r. auto.
    + intros (a & t & Hs & _ & Hk). symmetry in Hs.
      apply app_eq_nil in Hs as [-> ->]. rewrite Nat.add_0_r in Hk. exact Hk.
  - rewrite star_from_unfold, orb_true_iff. split.
    + intros [Hk | Hstep].
      * exists [], s. rewrite Nat.add_0_r. auto.
      * destruct s as [|c s']; [discriminate |].
        rewrite matches_chr_cons in Hstep.
        apply andb_prop in Hstep as [Hc Hrest].
        apply andb_prop in Hrest as [_ Hrest].
        apply IH in Hrest as (a & t & -> & Ha & Hk); [| cbn in Hlen; lia].
        exists (c :: a), t. cbn. rewrite Hc, Ha.
        rewrite <- Nat.add_succ_comm. auto.
    + intros (a & t & -> & Ha & Hk). destruct a as [|c a].
      * left. rewrite Nat.add_0_r in Hk. exact Hk.
      * right. cbn in Ha, Hk. apply andb_prop in Ha as [Hc Ha].
        cbn [app]. rewrite matches_chr_cons, Hc. cbn [andb].
        apply andb_true_intro. split; [apply Nat.ltb_lt; cbn; lia |].
        apply IH; [cbn in Hlen; lia |].
        exists a, t. rewrite Nat.add_succ_comm. auto.
Qed.

Lemma plus_class (p : N -> bool) (k : nat -> list N -> bool) (i : nat) (s : list N) :
  matches_at (Plus (Chr p)) k i s = true
  <-> exists a t, s = (a ++ t)%list /\ a <> [] /\ forallb p a = true
                  /\ k (i + length a) t = true.
Proof.
  unfold Plus. rewrite matches_seq. destruct s as [|c s'].
  - rewrite matches_chr_nil. split; [discriminate |].
    intros (a & t & Hs & Hne & _). symmetry in Hs.
    apply app_eq_nil in Hs as [-> _]. contradiction.
  - rewrite matches_chr_cons, matches_star, andb_true_iff, star_class by reflexivity.
    split.
    + intros (Hc & a & t & -> & Ha & Hk). exists (c :: a), t. cbn.
      rewrite Hc, Ha, <- Nat.add_succ_comm. auto.
    + intros (a & t & Hs & Hne & Ha & Hk). destruct a as [|c' a]; [contradiction |].
      cbn in Hs, Ha, Hk. injection Hs as -> ->.
      apply andb_prop in Ha as [Hc Ha]. split; [exact Hc |].
      exists a, t. rewrite Nat.add_succ_comm. auto.
Qed.

Lemma search_any (r : regex) (i : nat) (s : list N) :
  search r i s = true
  <-> exists a t, s = (a ++ t)%list
                  /\ matches_at r (fun _ _ => true) (i + length a) t = true.
Proof.
  revert i. induction s as [|c s IH]; intros i; cbn [search].
  - rewrite orb_false_r. split.
    + intros H. exists [], []. rewrite Nat.add_0_r. auto.
    + intros (a & t & Hs & H). symmetry in Hs. apply app_eq_nil in Hs as [-> ->].
      rewrite Nat.add_0_r in H. exact H.
  - rewrite orb_true_iff, IH. split.
    + intros [H | (a & t & -> & H)].
      * exists [], (c :: s). rewrite Nat.add_0_r. auto.
      * exists (c :: a), t. cbn. rewrite <- Nat.add_succ_comm. auto.
    + intros (a & t & Hs & H). destruct a as [|c' a].
      * left. cbn in Hs. subst t. rewrite Nat.add_0_r in H. exact H.
      * right. cbn in Hs, H. injection Hs as -> ->. exists a, t.
        rewrite Nat.add_succ_comm. auto.
Qed.

Lemma test_anchored (r : regex) (s : list N) :
  test (Seq Bol r) s = matches_at r (fun _ _ => true) 0 s.
Proof.
  apply eq_true_iff_eq. unfold test. rewrite search_any. split.
  - intros (a & t & -> & H). rewrite matches_seq, matches_bol in H.
    apply andb_prop in H as [Hi H].
    apply Nat.eqb_eq in Hi. destruct a; [exact H | discriminate Hi].
  - intros H. exists [], s. auto.
Qed.

Lemma test_class (p : N -> bool) (s : list N) :
  test (Chr p) s = existsb p s.
Proof.
  apply eq_true_iff_eq. unfold test. rewrite search_any, existsb_exists. split.
  - intros (a & t & -> & H). destruct t as [|c t]; [discriminate |].
    rewrite matches_chr_cons, andb_true_r in H. exists c. split; [| exact H].
    apply in_or_app. right. left. reflexivity.
  - intros (c & Hin & Hc). apply in_split in Hin as (a & t & ->).
    exists a, (c :: t). rewrite matches_chr_cons, Hc. auto.
Qed.

Lemma test_ahead (p : N -> bool) (s : list N) :
  test (Look (Seq (Star (Chr dot)) (Chr p))) s = existsb p s.
Proof.
  apply eq_true_iff_eq. unfold test. rewrite search_any, existsb_exists. split.
  - intros (a & t & -> & H).
    rewrite matches_look, andb_true_r, matches_seq, matches_star in H.
    apply star_class in H as (b & u & -> & _ & H); [| reflexivity].
    destruct u as [|c u]; [discriminate |].
    rewrite matches_chr_cons, andb_true_r in H.
    exists c. split; [| exact H].
    apply in_or_app. right. apply in_or_app. right. left. reflexivity.
  - intros (c & Hin & Hc). apply in_split in Hin as (a & t & ->).
    exists a, (c :: t). split; [reflexivity |].
    rewrite matches_look, andb_true_r, matches_seq, matches_star.
    apply star_class; [reflexivity |]. exists [], (c :: t).
    rewrite matches_chr_cons, Hc. auto.
Qed.

Lemma trim_start_empty (s : list N) :
  trim_start s = [] <-> forallb space s = true.
Proof.
  induction s as [|c s IH]; cbn; [tauto |].
  destruct (space c); cbn; [exact IH |]. split; discriminate.
Qed.

Lemma trim_empty (s : list N) :
  empty (trim s) = forallb space s.
Proof.
  apply eq_true_iff_eq. unfold trim.
  destruct (forallb space s) eqn:Hs.
  - apply trim_start_empty in Hs. rewrite Hs. cbn. tauto.
  - split; [| discriminate]. intros H.
    destruct (rev (trim_start (rev (trim_start s)))) eqn:Hr; [| discriminate].
    apply (f_equal (@rev N)) in Hr. rewrite rev_involutive in Hr. cbn in Hr.
    apply trim_start_empty in Hr. rewrite forallb_forall in Hr.
    assert (Hsome : trim_start s <> []).
    { intros E. apply trim_start_empty in E. congruence. }
    destruct (trim_start s) as [|c u] eqn:Hu; [contradiction |].
    assert (Hc : space c = false).
    { clear -Hu. induction s as [|x s IH]; cbn in Hu; [discriminate |].
      destruct (space x) eqn:Hx; [auto | congruence]. }
    rewrite (Hr c) in Hc; [discriminate |].
    apply in_rev. rewrite rev_involutive. left. reflexivity.
Qed.

End RegexFacts.

(** ** The registration form *)

Ltac class_hyps :=
  repeat match goal with
         | H : (_ || _) = true |- _ => apply orb_prop in H; destruct H
         | H : (_ && _) = true |- _ => apply andb_prop in H; destruct H
         | H : (_ <=? _)%N = true |- _ => apply N.leb_le in H
         | H : (_ =? _)%N = true |- _ => apply N.eqb_eq in H
         end.

Ltac signup_eval :=
  cbv [Signup.run Signup.handle Signup.handleChange Signup.handleSubmit
       Signup.validate Signup.setFormData Signup.setErrors Signup.setIsLoading
       Signup.setSuccessMessage Signup.on_state Signup.st Signup.trace
       Signup.formData Signup.errors Signup.isLoading Signup.successMessage
       foldl negb
       exec mbind js_bind mret js_ret modify gets lift throw try_catch
       try_finally fst snd].

Section SignupFacts.
Import Regex Signup.

Lemma word_not_space (c : N) : word c = true -> space c = false.
Proof.
  unfold word, space, line_terminator, lower, upper, digit, in_range.
  intros H. apply not_true_is_false. intros Hs. class_hyps; lia.
Qed.

Lemma address_char_not_space (c : N) : address_char c = true -> space c = false.
Proof.
  unfold address_char. intros H. apply negb_true_iff, orb_false_iff in H. tauto.
Qed.

Lemma eol_accepts (i : nat) (t : list N) :
  matches_at Eol (fun _ _ => true) i t = true <-> t = [].
Proof. destruct t; cbn; split; congruence. Qed.

Lemma username_pattern_test (s : list N) :
  test username_pattern s = negb (empty s) && forallb word s.
Proof.
  apply eq_true_iff_eq. unfold username_pattern.
  rewrite test_anchored, matches_seq, plus_class. split.
  - intros (a & t & -> & Hne & Ha & Ht). apply eol_accepts in Ht. subst t.
    rewrite app_nil_r, Ha. destruct a; [contradiction | reflexivity].
  - intros H. apply andb_prop in H as [Hne Hall].
    exists s, []. rewrite app_nil_r. repeat split; auto.
    intros ->. discriminate Hne.
Qed.

(** A string that a class without white space accepts throughout, and that
    is not empty, is not blank. *)
Lemma not_blank (p : N -> bool) (s : list N) :
  (forall c, p c = true -> space c = false) ->
  s <> [] -> forallb p s = true -> forallb space s = false.
Proof.
  intros Hp Hne Hall. destruct s as [|c s]; [contradiction |].
  cbn in Hall |- *. apply andb_prop in Hall as [Hc _].
  rewrite (Hp c Hc). reflexivity.
Qed.

Lemma username_error_none (f : form) :
  username_error f = None
  <-> 3 <= length (username f) <= 20 /\ forallb word (username f) = true.
Proof.
  unfold username_error. rewrite trim_empty, username_pattern_test.
  destruct (forallb space (username f)) eqn:Hblank.
  - split; [discriminate |]. intros [[Hlo _] Hall].
    rewrite (not_blank word (username f) word_not_space) in Hblank;
      [discriminate | | exact Hall].
    intros E. rewrite E in Hlo. cbn in Hlo. lia.
  - destruct (Nat.ltb_spec (length (username f)) 3) as [H3 | H3];
      [split; [discriminate | lia] |].
    destruct (Nat.ltb_spec 20 (length (username f))) as [H20 | H20];
      [split; [discriminate | lia] |].
    destruct (username f) as [|c u] eqn:Hu; [cbn in H3; lia |].
    cbn [empty negb andb].
    destruct (forallb word (c :: u)); cbn; split; try discriminate; auto.
    intros [_ H]. discriminate H.
Qed.

Lemma password_error_none (f : form) :
  password_error f = None
  <-> 8 <= length (password f)
      /\ existsb lower (password f) = true
      /\ existsb upper (password f) = true
      /\ existsb digit (password f) = true.
Proof.
  unfold password_error, ahead. rewrite !test_ahead.
  destruct (password f) as [|c p] eqn:Hp.
  - cbn. split; [discriminate | lia].
  - cbn [empty].
    destruct (Nat.ltb_spec (length (c :: p)) 8) as [H8 | H8];
      [split; [discriminate | lia] |].
    destruct (existsb lower (c :: p)), (existsb upper (c :: p)),
      (existsb digit (c :: p)); cbn; split; try discriminate; try tauto;
      intros (_ & H1 & H2 & H3); discriminate.
Qed.

Lemma email_pattern_test (s : list N) :
  test email_pattern s = true
  <-> exists a b c,
        s = (a ++ [64%N] ++ b ++ [46%N] ++ c)%list
        /\ a <> [] /\ b <> [] /\ c <> []
        /\ forallb address_char a = true
        /\ forallb address_char b = true
        /\ forallb address_char c = true.
Proof.
  unfold email_pattern. rewrite test_anchored, matches_seq, plus_class. split.
  - intros (a & t & -> & Hane & Ha & H).
    destruct t as [|x t]; [discriminate |].
    rewrite matches_seq, matches_chr_cons in H. apply andb_prop in H as [Hx H].
    apply N.eqb_eq in Hx. subst x. rewrite matches_seq in H.
    apply plus_class in H as (b & u & -> & Hbne & Hb & H).
    destruct u as [|y u]; [discriminate |].
    rewrite matches_seq, matches_chr_cons in H. apply andb_prop in H as [Hy H].
    apply N.eqb_eq in Hy. subst y.
    rewrite matches_seq in H.
    apply plus_class in H as (c & v & -> & Hcne & Hc & H).
    apply eol_accepts in H. subst v. rewrite app_nil_r.
    exists a, b, c. repeat split; auto.
  - intros (a & b & c & -> & Hane & Hbne & Hcne & Ha & Hb & Hc).
    exists a, ([64%N] ++ b ++ [46%N] ++ c)%list. repeat split; auto.
    cbn [app]. rewrite matches_seq, matches_chr_cons, N.eqb_refl. cbn [andb].
    rewrite matches_seq. apply plus_class. exists b, (46%N :: c). repeat split; auto.
    rewrite matches_seq, matches_chr_cons, N.eqb_refl. cbn [andb].
    rewrite matches_seq. apply plus_class. exists c, []. rewrite app_nil_r.
    repeat split; auto.
Qed.

Lemma email_error_none (f : form) :
  email_error f = None
  <-> exists a b c,
        email f = (a ++ [64%N] ++ b ++ [46%N] ++ c)%list
        /\ a <> [] /\ b <> [] /\ c <> []
        /\ forallb address_char a = true
        /\ forallb address_char b = true
        /\ forallb address_char c = true.
Proof.
  rewrite <- email_pattern_test. unfold email_error. rewrite trim_empty.
  destruct (test email_pattern (email f)) eqn:Ht.
  - destruct (forallb space (email f)) eqn:Hblank; [| cbn; tauto].
    apply email_pattern_test in Ht as (a & b & c & E & Hane & _ & _ & Ha & _).
    rewrite E in Hblank. destruct a as [|x a]; [contradiction |].
    cbn in Ha, Hblank. apply andb_prop in Ha as [Hx _].
    rewrite (address_char_not_space x Hx) in Hblank. discriminate.
  - destruct (forallb space (email f)); cbn; split; discriminate.
Qed.

Lemma confirm_error_none (f : form) :
  confirm_error f = None
  <-> confirmPassword f <> [] /\ password f = confirmPassword f.
Proof.
  unfold confirm_error. destruct (confirmPassword f) as [|c p] eqn:Hc.
  - cbn. split; [discriminate | intros [H _]; contradiction].
  - cbn [empty]. case_bool_decide as Heq; cbn; split; try discriminate; auto.
    intros [_ H]. contradiction.
Qed.

Lemma name_error_none (f : form) :
  name_error f = None
  <-> 2 <= length (name f) /\ forallb space (name f) = false.
Proof.
  unfold name_error. rewrite trim_empty.
  destruct (forallb space (name f)); [split; [discriminate | intros [_ H]; discriminate] |].
  destruct (Nat.ltb_spec (length (name f)) 2); split; try discriminate; auto; lia.
Qed.

Lemma record_error_lookup (key k : string) (e : option string) (m : gmap string string) :
  record_error key e m !! k
  = if decide (key = k) then (match e with Some x => Some x | None => m !! k end)
    else m !! k.
Proof.
  unfold record_error. destruct e; case_decide; subst;
    rewrite ?lookup_insert_eq, ?lookup_insert_ne by assumption; reflexivity.
Qed.

(** [newErrors] holds, for each input, the message of its rule, and
    nothing else. *)
Lemma validation_errors_lookup (f : form) (i : input) :
  validation_errors f !! input_name i = field_error i f.
Proof.
  unfold validation_errors. rewrite !record_error_lookup.
  destruct i; cbn;
    repeat (case_decide; try discriminate; try congruence);
    rewrite ?lookup_empty;
    repeat match goal with |- context [match ?e with _ => _ end] => destruct e end;
    reflexivity.
Qed.

Lemma validation_errors_empty (f : form) :
  validation_errors f = ∅ <-> forall i, field_error i f = None.
Proof.
  split.
  - intros E i. rewrite <- validation_errors_lookup, E. apply lookup_empty.
  - intros H. unfold validation_errors.
    rewrite (H Username : username_error f = None), (H Email : email_error f = None),
      (H Password : password_error f = None), (H ConfirmPassword : confirm_error f = None),
      (H Name : name_error f = None).
    reflexivity.
Qed.

Lemma submit_state (w : world) :
  st (exec handleSubmit w)
  = if (size (validation_errors (formData (st w))) =? 0)%nat
    then {| formData := formData (st w);
            errors := validation_errors (formData (st w));
            isLoading := true; successMessage := "" |}
    else {| formData := formData (st w);
            errors := validation_errors (formData (st w));
            isLoading := isLoading (st w);
            successMessage := successMessage (st w) |}.
Proof.
  destruct w as [[] tr]. signup_eval.
  destruct (size _ =? 0)%nat; reflexivity.
Qed.

Lemma submit_errors (w : world) :
  errors (st (exec handleSubmit w)) = validation_errors (formData (st w)).
Proof. rewrite submit_state. destruct (size _ =? 0)%nat; reflexivity. Qed.

Lemma submit_trace (w : world) : trace (exec handleSubmit w) = trace w.
Proof.
  destruct w as [[] tr]. signup_eval. destruct (size _ =? 0)%nat; reflexivity.
Qed.

End SignupFacts.

Section SignupCoverage.
Import Regex Signup.

(** On submission the username is flagged unless it has between 3 and 20
    code units, 20 included, all of them letters, digits or underscores. *)
Theorem signup_username_rule (w : world) :
  errors (st (exec handleSubmit w)) !! "username" = None
  <-> 3 <= length (username (formData (st w))) <= 20
      /\ forallb word (username (formData (st w))) = true.
Proof.
  rewrite submit_errors. change "username" with (input_name Username).
  rewrite validation_errors_lookup. apply username_error_none.
Qed.

(** On submission the email is flagged unless it reads [a@b.c] with [a],
    [b] and [c] not empty and free of white space and of [@]: one [@]
    only, and a dot after it with something on both sides. *)
Theorem signup_email_rule (w : world) :
  errors (st (exec handleSubmit w)) !! "email" = None
  <-> exists a b c,
        email (formData (st w)) = (a ++ [64%N] ++ b ++ [46%N] ++ c)%list
        /\ a <> [] /\ b <> [] /\ c <> []
        /\ forallb address_char a = true
        /\ forallb address_char b = true
        /\ forallb address_char c = true.
Proof.
  rewrite submit_errors. change "email" with (input_name Email).
  rewrite validation_errors_lookup. apply email_error_none.
Qed.

(** On submission the password is flagged unless it has at least 8 code
    units and holds a lower-case letter, an upper-case letter and a digit
    somewhere, line breaks or not: each look-ahead pattern of the rule
    accepts exactly the passwords that contain a character of its class. *)
Theorem signup_password_rule (w : world) :
  errors (st (exec handleSubmit w)) !! "password" = None
  <-> 8 <= length (password (formData (st w)))
      /\ existsb lower (password (formData (st w))) = true
      /\ existsb upper (password (formData (st w))) = true
      /\ existsb digit (password (formData (st w))) = true.
Proof.
  rewrite submit_errors. change "password" with (input_name Password).
  rewrite validation_errors_lookup. apply password_error_none.
Qed.

(** On submission the confirmation is flagged unless it is not empty and
    equal to the password, and the name unless it has at least 2 code
    units, not all of them white space. *)
Theorem signup_confirmation_and_name_rules (w : world) :
  (errors (st (exec handleSubmit w)) !! "confirmPassword" = None
   <-> confirmPassword (formData (st w)) <> []
       /\ password (formData (st w)) = confirmPassword (formData (st w)))
  /\ (errors (st (exec handleSubmit w)) !! "name" = None
      <-> 2 <= length (name (formData (st w)))
          /\ forallb space (name (formData (st w))) = false).
Proof.
  rewrite submit_errors. split.
  - change "confirmPassword" with (input_name ConfirmPassword).
    rewrite validation_errors_lookup. apply confirm_error_none.
  - change "name" with (input_name Name).
    rewrite validation_errors_lookup. apply name_error_none.
Qed.

(** A submission replaces the messages by those of the five rules, one per
    failing input and no other, and never touches what was typed.  When
    no rule fails it sets the loading flag and empties the success
    message; when one fails it leaves both as they were.  Either way
    nothing is sent. *)
Theorem signup_submit_outcome (w : world) (i : input) :
  let f := formData (st w) in
  let w' := exec handleSubmit w in
  errors (st w') !! input_name i = field_error i f
  /\ (errors (st w') = ∅ <-> forall j, field_error j f = None)
  /\ isLoading (st w') = (if decide (errors (st w') = ∅) then true else isLoading (st w))
  /\ successMessage (st w')
     = (if decide (errors (st w') = ∅) then "" else successMessage (st w))
  /\ formData (st w') = f
  /\ trace w' = trace w.
Proof.
  intros f w'. subst f w'. rewrite submit_errors.
  split; [apply validation_errors_lookup |].
  split; [apply validation_errors_empty |].
  rewrite submit_state.
  assert (Hsize : (size (validation_errors (formData (st w))) =? 0)%nat
                  = bool_decide (validation_errors (formData (st w)) = ∅)).
  { apply eq_true_iff_eq. rewrite Nat.eqb_eq, bool_decide_eq_true.
    apply map_size_empty_iff. }
  rewrite Hsize, submit_trace. destruct w as [[] tr].
  case_bool_decide; case_decide; try contradiction; repeat split.
Qed.

(** The strength of a password is at most 5, so that its label and colour
    are always entries of the two tables.  An empty password has strength
    0 and an empty label; any other has strength at least 1, hence a
    label and a colour that are not empty. *)
Theorem strength_label_defined (f : form) :
  let r := getPasswordStrength f in
  strength r <= 5
  /\ (password f = [] -> r = {| strength := 0; label := Some ""; color := None |})
  /\ (password f <> [] ->
      1 <= strength r
      /\ label r = labels !! strength r
      /\ exists l c, label r = Some l /\ color r = Some c /\ l <> "" /\ c <> "").
Proof.
  intros r. subst r. unfold getPasswordStrength.
  destruct (password f) as [|c p] eqn:Hp.
  - cbn. split; [lia |]. split; [reflexivity |]. intros H. contradiction.
  - cbn [empty]. rewrite !test_class.
    assert (Hany : existsb lower (c :: p) || existsb upper (c :: p)
                   || existsb digit (c :: p) || existsb special (c :: p) = true).
    { cbn [existsb]. unfold special.
      destruct (lower c), (upper c), (digit c);
        repeat match goal with
               | |- context [existsb ?q p] => destruct (existsb q p)
               end; reflexivity. }
    destruct (8 <=? length (c :: p))%nat, (existsb lower (c :: p)),
      (existsb upper (c :: p)), (existsb digit (c :: p)),
      (existsb special (c :: p));
      try discriminate Hany;
      (split; [cbn; lia |]); (split; [discriminate |]); intros _;
      (split; [cbn; lia |]); (split; [reflexivity |]);
      eexists _, _; repeat split; discriminate.
Qed.

(** A password that passes the rule of the form has strength 4 or 5: its
    label is "Very Strong" when it holds a character that is neither a
    letter nor a digit, and "Strong" otherwise. *)
Theorem accepted_password_is_strong (f : form) :
  field_error Password f = None ->
  strength (getPasswordStrength f) = (if existsb special (password f) then 5 else 4)
  /\ label (getPasswordStrength f)
     = Some (if existsb special (password f) then "Very Strong" else "Strong").
Proof.
  intros H. apply password_error_none in H as (Hlen & Hl & Hu & Hd).
  unfold getPasswordStrength. rewrite !test_class, Hl, Hu, Hd.
  destruct (password f) as [|c p]; [cbn in Hlen; lia |]. cbn [empty].
  apply Nat.leb_le in Hlen. rewrite Hlen.
  destruct (existsb special (c :: p)); split; reflexivity.
Qed.

Lemma handle_keeps_loading (e : event) (w : world) :
  trace (exec (handle e) w) = trace w
  /\ (isLoading (st w) = true -> isLoading (st (exec (handle e) w)) = true).
Proof.
  destruct e as [i v |].
  - destruct w as [[] tr]. signup_eval.
    destruct (has_message _ _); split; auto.
  - cbn [handle]. rewrite submit_state. destruct w as [[] tr].
    split; [apply submit_trace |].
    cbn. intros ->. destruct (size _ =? 0)%nat; reflexivity.
Qed.

(** Once the loading flag is set, by a submission that passed the rules,
    no event of the form clears it; and no event sends anything. *)
Theorem loading_never_clears (es : list event) (w : world) :
  isLoading (st w) = true ->
  isLoading (st (run es w)) = true /\ trace (run es w) = trace w.
Proof.
  revert w. induction es as [|e es IH]; intros w Hw; [split; auto |].
  destruct (handle_keeps_loading e w) as [Ht Hl].
  destruct (IH (exec (handle e) w) (Hl Hw)) as [H1 H2].
  split; [exact H1 |].
  change (run (e :: es) w) with (run es (exec (handle e) w)).
  rewrite H2. exact Ht.
Qed.

(** Typing in an input stores the value for that input and leaves the
    four others alone.  The message of that input, if it had one, is
    blanked, not removed and not recomputed; the messages of the other
    inputs, the loading flag and the success message stay. *)
Theorem change_blanks_only_its_message (w : world) (i : input) (value : list N) :
  let w' := exec (handleChange i value) w in
  get_input i (formData (st w')) = value
  /\ (forall j, j <> i -> get_input j (formData (st w')) = get_input j (formData (st w)))
  /\ has_message (errors (st w')) (input_name i) = false
  /\ (forall k, k <> input_name i -> errors (st w') !! k = errors (st w) !! k)
  /\ dom (errors (st w')) = dom (errors (st w))
  /\ isLoading (st w') = isLoading (st w)
  /\ successMessage (st w') = successMessage (st w).
Proof.
  intros w'. subst w'. destruct w as [[fd es ld sm] tr].
  assert (E : st (exec (handleChange i value)
                    {| st := {| formData := fd; errors := es; isLoading := ld;
                                successMessage := sm |}; trace := tr |})
              = {| formData := set_input i value fd;
                   errors := if has_message es (input_name i)
                             then <[input_name i := ""]> es else es;
                   isLoading := ld; successMessage := sm |}).
  { signup_eval. destruct (has_message es (input_name i)); reflexivity. }
  rewrite E. cbn [formData errors isLoading successMessage st].
  split; [destruct i; reflexivity |].
  split; [intros j Hj; destruct i, j; try reflexivity; contradiction |].
  destruct (has_message es (input_name i)) eqn:Hm.
  - split; [unfold has_message; rewrite lookup_insert_eq; reflexivity |].
    split; [intros k Hk; apply lookup_insert_ne; congruence |].
    split; [| split; reflexivity].
    unfold has_message in Hm. destruct (es !! input_name i) eqn:Hl; [| discriminate].
    apply dom_insert_lookup_L. eauto.
  - repeat split; auto.
Qed.

End SignupCoverage.

(** ** Further concrete instances *)

Section CoverageInstances.
Import Dashboard Samples.


Lemma ratings_refresh_all_or_nothing_witness :
  st (exec (fetchUserRatings_settled string_key
              (Response true
                 (Some (JObj [("ratings",
                               JArr [JObj [("movie_id", JStr "tt0068646");
                                           ("rating", JNum 5)];
                                     JNull])]))))
        rated_four)
  = st rated_four.
Proof.
  refine (proj1
    (ratings_refresh_all_or_nothing string_key rated_four
       (JObj [("ratings",
               JArr [JObj [("movie_id", JStr "tt0068646"); ("rating", JNum 5)];
                     JNull])])
       (JArr [JObj [("movie_id", JStr "tt0068646"); ("rating", JNum 5)]; JNull])
       eq_refl _)).
  apply Exists_cons_tl, Exists_cons_hd. left. reflexivity.
Defined.

Lemma rate_ok_without_stats_stores_rating_only_witness :
  userStats
    (st (exec (rateMovie_settled string_key (JStr "tt0068646") (JNum 5)
                 (Response true (Some (JObj [("message", JStr "saved")]))))
           rated_four))
  = userStats (st rated_four).
Proof.
  refine (proj1 (proj2
    (rate_ok_without_stats_stores_rating_only string_key rated_four
       (JStr "tt0068646") (JNum 5) (JObj [("message", JStr "saved")]) _))).
  right. reflexivity.
Defined.

Lemma rate_leaves_other_ratings_witness :
  userRatings
    (st (exec (rateMovie_settled string_key (JStr "tt0068646") (JNum 5)
                 (Response true (Some rated)))
           rated_four))
  !! "tt0111161"
  = userRatings (st rated_four) !! "tt0111161".
Proof.
  apply (rate_leaves_other_ratings string_key rated_four (JStr "tt0068646") (JNum 5)
           (Response true (Some rated)) "tt0111161").
  discriminate.
Defined.

Lemma add_to_watchlist_refetches_witness :
  let w := start signed_in in
  let w1 := exec (addToWatchlist "development" (JStr "tt0068646")) w in
  let w2 := exec (settle "development" string_key (next_id w) (Response true None)) w1 in
  let w3 := exec (settle "development" string_key (S (next_id w))
                    (Response true (Some (JObj [("watchlist", JArr [shawshank])])))) w2 in
  watchlist (st w3) = JArr [shawshank].
Proof.
  exact (proj2 (proj2
    (add_to_watchlist_refetches "development" string_key (start signed_in)
       (JStr "tt0068646") (JObj [("watchlist", JArr [shawshank])])
       (JArr [shawshank]) None eq_refl))).
Defined.

Lemma mount_with_session_sends_four_witness :
  user (st (exec (mount "development") (start signed_in)))
  = JObj [("username", JStr "ann"); ("name", JStr "Ann")].
Proof.
  refine (proj1
    (mount_with_session_sends_four "development" signed_in "eyJhbGciOi"
       (JObj [("username", JStr "ann"); ("name", JStr "Ann")]) eq_refl _ eq_refl)).
  discriminate.
Defined.

Lemma startup_refreshes_commute_witness :
  st (exec (settled "development" string_key AfterUserRatings
              (Response true (Some ratings_listed)))
        (exec (settled "development" string_key AfterGenres NetworkError)
           (start signed_in)))
  = st (exec (settled "development" string_key AfterGenres NetworkError)
          (exec (settled "development" string_key AfterUserRatings
                   (Response true (Some ratings_listed)))
             (start signed_in))).
Proof.
  apply (startup_refreshes_commute "development" string_key
           AfterUserRatings AfterGenres
           (Response true (Some ratings_listed)) NetworkError (start signed_in)).
  - apply list_elem_of_further, list_elem_of_further, list_elem_of_here.
  - apply list_elem_of_here.
  - discriminate.
Defined.

Lemma bearer_only_to_authenticated_endpoints_witness :
  let r := {| url := API_URL "development" ++ "/api/watchlist"; method := GET;
              content_json := false; authorization := Some (Some "eyJhbGciOi");
              body := None |} in
  (authorization r = None
   /\ (url r = API_URL "development" ++ "/api/genres"
       \/ url r = API_URL "development" ++ "/api/recommend"))
  \/ (authorization r <> None
      /\ (url r = API_URL "development" ++ "/api/user/stats"
          \/ url r = API_URL "development" ++ "/api/ratings"
          \/ url r = API_URL "development" ++ "/api/watchlist")).
Proof.
  apply (bearer_only_to_authenticated_endpoints "development" string_key
           [Mount] signed_in).
  vm_compute.
  apply list_elem_of_further, list_elem_of_further, list_elem_of_here.
Defined.

Lemma star_rating_flow_witness :
  let w := start signed_in in
  let w1 := run "development" string_key [ClickRate shawshank; ClickStar Star5; ClickSave] w in
  let w2 := run "development" string_key
              [Settle (next_id w) (Response true (Some rated))] w1 in
  userRatings (st w2) !! string_key (JStr "tt0111161") = Some (JNum (star_value Star5)).
Proof.
  exact (proj1 (proj2
    (star_rating_flow "development" string_key (start signed_in) shawshank
       (JStr "tt0111161") rated
       (JObj [("user_mean", JNum 4); ("rating_count", JNum 1)])
       (JNum 4) (JNum 1) Star5 eq_refl eq_refl eq_refl eq_refl eq_refl))).
Defined.


Lemma second_click_while_loading_is_ignored_witness :
  run "development" string_key [ClickGetRecommendations; ClickGetRecommendations]
    (start signed_in)
  = run "development" string_key [ClickGetRecommendations] (start signed_in).
Proof.
  exact (proj1
    (second_click_while_loading_is_ignored "development" string_key
       (start signed_in) NetworkError eq_refl)).
Defined.

Lemma login_validation_blocks_request_witness :
  let w' := exec (Login.handleLogin "" "") Login.start in
  Login.trace w' = Login.trace Login.start.
Proof.
  refine (proj1 (login_validation_blocks_request Login.start "" "" _)).
  left. reflexivity.
Defined.

Lemma login_submit_resets_and_sends_witness :
  let w' := exec (Login.handleLogin "ann" "secret") Login.start in
  Login.in_flight w' = true.
Proof.
  refine (proj1 (proj2
    (login_submit_resets_and_sends Login.start "ann" "secret" _ _)));
    discriminate.
Defined.

Lemma login_unreadable_response_reports_network_error_witness :
  let w' := exec (Login.handleLogin_settled (Response false (Some JNull))) Login.start in
  Login.invalidCredentials (Login.st w') = JStr "Network error. Please try again.".
Proof.
  refine (proj1 (proj2
    (login_unreadable_response_reports_network_error Login.start
       (Response false (Some JNull)) false) _)).
  right. right. reflexivity.
Defined.

Lemma strength_label_defined_witness :
  1 <= Signup.strength (Signup.getPasswordStrength filled_form).
Proof.
  refine (proj1 (proj2 (proj2 (strength_label_defined filled_form)) _)).
  discriminate.
Defined.

Lemma accepted_password_is_strong_witness :
  Signup.label (Signup.getPasswordStrength filled_form)
  = Some (if existsb Signup.special (Signup.password filled_form)
          then "Very Strong" else "Strong").
Proof.
  refine (proj2 (accepted_password_is_strong filled_form _)).
  vm_compute. reflexivity.
Defined.

Lemma loading_never_clears_witness :
  Signup.isLoading
    (Signup.st
       (Signup.run [Signup.Change Signup.Email (Regex.code_units "x"); Signup.Submit]
          (exec Signup.handleSubmit filled)))
  = true.
Proof.
  refine (proj1
    (loading_never_clears
       [Signup.Change Signup.Email (Regex.code_units "x"); Signup.Submit]
       (exec Signup.handleSubmit filled) _)).
  vm_compute. reflexivity.
Defined.

End CoverageInstances.
